(** * rag_project: the orchestration scripts, embedded and verified

    The repository holds three command-line programs:
      - [common_rag.py]     (llama_index over a Chroma collection),
      - [lightrag.py]       (LightRAG, the short script),
      - [lightrag-demo.py]  (LightRAG, the script with per-file and
                             per-query error handling).

    Each program is embedded as functions of a small state-and-exception
    monad over a [world]: the console and call trace, the file system, and
    the state of the external service (LightRAG instance or Chroma
    collection).  External libraries are parameters of the sections. *)

From Stdlib Require Import List String Ascii NArith ZArith Lia Bool Permutation.
From Stdlib Require Import DecimalString.
From Stdlib.Strings Require Import Byte.
Import ListNotations.

Set Implicit Arguments.

(* ================================================================== *)
(** * The Python runtime the scripts rely on *)
(* ================================================================== *)

Module Py.

(** A Python [str] is a sequence of Unicode code points. *)
Definition str := list N.

Definition str_eqb (a b : str) : bool :=
  if list_eq_dec N.eq_dec a b then true else false.

(** ** [bytes.decode("utf-8")], strict error handler *)

Definition is_cont (b : N) : bool := ((128 <=? b) && (b <=? 191))%N.

Definition is_surrogate (cp : N) : bool := ((55296 <=? cp) && (cp <=? 57343))%N.

Fixpoint utf8_decode (bs : list N) : option str :=
  match bs with
  | [] => Some []
  | b0 :: r0 =>
      if (b0 <? 128)%N then option_map (cons b0) (utf8_decode r0)
      else if ((194 <=? b0) && (b0 <=? 223))%N then
        match r0 with
        | b1 :: r1 =>
            if is_cont b1
            then option_map (cons ((b0 - 192) * 64 + (b1 - 128))%N) (utf8_decode r1)
            else None
        | _ => None
        end
      else if ((224 <=? b0) && (b0 <=? 239))%N then
        match r0 with
        | b1 :: b2 :: r2 =>
            let cp := ((b0 - 224) * 4096 + (b1 - 128) * 64 + (b2 - 128))%N in
            if is_cont b1 && is_cont b2 && (2048 <=? cp)%N && negb (is_surrogate cp)
            then option_map (cons cp) (utf8_decode r2)
            else None
        | _ => None
        end
      else if ((240 <=? b0) && (b0 <=? 244))%N then
        match r0 with
        | b1 :: b2 :: b3 :: r3 =>
            let cp := ((b0 - 240) * 262144 + (b1 - 128) * 4096
                       + (b2 - 128) * 64 + (b3 - 128))%N in
            if is_cont b1 && is_cont b2 && is_cont b3
               && (65536 <=? cp)%N && (cp <=? 1114111)%N
            then option_map (cons cp) (utf8_decode r3)
            else None
        | _ => None
        end
      else None
  end.

Definition decode (data : list byte) : option str :=
  utf8_decode (map Byte.to_N data).

(** String literals of the scripts: the source files are UTF-8. *)
Definition u (s : string) : str :=
  match decode (list_byte_of_string s) with
  | Some t => t
  | None => []
  end.

(** Text-mode reading ([newline=None]): "\r\n" and "\r" become "\n". *)
Fixpoint universal_newlines (s : str) : str :=
  match s with
  | [] => []
  | c :: r =>
      if (c =? 13)%N then
        10%N :: match r with
                | d :: r' => if (d =? 10)%N then universal_newlines r'
                             else universal_newlines r
                | [] => []
                end
      else c :: universal_newlines r
  end.

(** ** [str.isspace] per character, [str.strip] *)

Definition isspace (c : N) : bool :=
  (((9 <=? c) && (c <=? 13)) || ((28 <=? c) && (c <=? 32))
   || (c =? 133) || (c =? 160) || (c =? 5760)
   || ((8192 <=? c) && (c <=? 8202)) || (c =? 8232) || (c =? 8233)
   || (c =? 8239) || (c =? 8287) || (c =? 12288))%N.

Fixpoint lstrip (s : str) : str :=
  match s with
  | [] => []
  | c :: r => if isspace c then lstrip r else s
  end.

Definition rstrip (s : str) : str := rev (lstrip (rev s)).

Definition strip (s : str) : str := rstrip (lstrip s).

(** Truth value of a [str]: [not s] is [is_empty s]. *)
Definition is_empty (s : str) : bool :=
  match s with [] => true | _ => false end.

(** ** [str.lower]

    ASCII letters are lowered here; the Unicode case table for the other
    code points belongs to the interpreter and is the parameter
    [unicode_lower] (a code point may lower to several, as U+0130 does).
    Lowering is taken code point by code point: the one rule of Python
    that looks at the context, capital sigma at the end of a word, is
    folded into the table. *)

Section Lower.
Variable unicode_lower : N -> list N.

Definition lower_char (c : N) : list N :=
  if ((65 <=? c) && (c <=? 90))%N then [(c + 32)%N]
  else if (c <? 128)%N then [c]
  else unicode_lower c.

Definition lower (s : str) : str := flat_map lower_char s.
End Lower.

(** ** [os.path.splitext] (posixpath: sep "/", extsep ".") *)

Definition sep : N := 47.
Definition extsep : N := 46.

Fixpoint rfind_aux (c : N) (s : str) (i last : Z) : Z :=
  match s with
  | [] => last
  | x :: r => rfind_aux c r (i + 1)%Z (if (x =? c)%N then i else last)
  end.

(** [s.rfind(c)]: the highest index of [c], or -1. *)
Definition rfind (c : N) (s : str) : Z := rfind_aux c s 0%Z (-1)%Z.

(** [s[a:b]] for [0 <= a]. *)
Definition slice (s : str) (a b : Z) : str :=
  firstn (Z.to_nat (b - a)) (skipn (Z.to_nat a) s).

Definition splitext (p : str) : str * str :=
  let sepIndex := rfind sep p in
  let dotIndex := rfind extsep p in
  if (sepIndex <? dotIndex)%Z
     && existsb (fun c => negb (c =? extsep)%N) (slice p (sepIndex + 1) dotIndex)
  then (firstn (Z.to_nat dotIndex) p, skipn (Z.to_nat dotIndex) p)
  else (p, []).

(** A prefix of a path that ends its directory part: empty, or ending
    in "/". *)
Definition dir_prefix (pre : str) : Prop :=
  pre = [] \/ exists d, pre = d ++ [sep].

(** What is assumed of the Unicode case table: a code point outside
    ASCII does not lower to nothing, nor to text that holds "." or "/". *)
Definition keeps_separators (unicode_lower : N -> list N) : Prop :=
  forall c, (128 <= c)%N ->
    unicode_lower c <> []
    /\ ~ In extsep (unicode_lower c) /\ ~ In sep (unicode_lower c).

(** [os.path.join(a, b)] for a relative [b]. *)
Definition path_join (a b : str) : str :=
  match rev a with
  | [] => b
  | c :: _ => if (c =? sep)%N then a ++ b else a ++ sep :: b
  end.

(** [str(n)] for a non-negative [int]. *)
Definition str_of_nat (n : nat) : str :=
  u (NilZero.string_of_uint (Nat.to_uint n)).

(** [" ".join(parts)], as [print] does with several arguments. *)
Fixpoint join_sp (parts : list str) : str :=
  match parts with
  | [] => []
  | [p] => p
  | p :: rest => p ++ 32%N :: join_sp rest
  end.

(** ** Exceptions (subclasses of [Exception]) *)

Inductive exn_class :=
| UnicodeDecodeError
| FileNotFoundError
| FileExistsError
| NotADirectoryError
| PermissionError
| EOFError
| TypeError
| ValueError
| RuntimeError.

Record exn := mk_exn { exn_class_of : exn_class; exn_msg : str }.

Definition is_TypeError (e : exn) : bool :=
  match exn_class_of e with TypeError => true | _ => false end.

Definition is_UnicodeDecodeError (e : exn) : bool :=
  match exn_class_of e with UnicodeDecodeError => true | _ => false end.

(** ** Statements: state passing with exceptions *)

Inductive outcome (A : Type) :=
| Return (a : A)
| Raise (e : exn).
Arguments Return {A} a.
Arguments Raise {A} e.

Definition M (W A : Type) : Type := W -> outcome A * W.

Definition ret {W A} (a : A) : M W A := fun w => (Return a, w).

Definition raise {W A} (e : exn) : M W A := fun w => (Raise e, w).

Definition bind {W A B} (m : M W A) (k : A -> M W B) : M W B :=
  fun w =>
    match m w with
    | (Return a, w') => k a w'
    | (Raise e, w') => (Raise e, w')
    end.

(** [try: m  except Exception as e: h e] *)
Definition try_except {W A} (m : M W A) (h : exn -> M W A) : M W A :=
  fun w =>
    match m w with
    | (Return a, w') => (Return a, w')
    | (Raise e, w') => h e w'
    end.

(** [for x in xs: body x] *)
Fixpoint for_each {W A} (xs : list A) (body : A -> M W unit) : M W unit :=
  match xs with
  | [] => ret tt
  | x :: rest => bind (body x) (fun _ => for_each rest body)
  end.

End Py.

Declare Scope py_scope.
Delimit Scope py_scope with py.
Notation "x <- m ;; k" := (Py.bind m (fun x => k))
  (at level 100, m at next level, right associativity) : py_scope.
Notation "m ;; k" := (Py.bind m (fun _ => k))
  (at level 100, right associativity) : py_scope.

Import Py.
Open Scope py_scope.
Arguments u : simpl never.
Arguments str_of_nat : simpl never.

(* ================================================================== *)
(** * The environment: console, file system, external services *)
(* ================================================================== *)

Module Env.

Inductive level := INFO | WARNING | ERROR.

(** [lightrag.QueryParam]: the two fields the scripts set
    ([stream] defaults to [False]). *)
Record QueryParam := mk_param { mode : str; stream : bool }.

(** A generator of text chunks: it yields [chunks] in order and then
    either stops or raises [failure]. *)
Record generator := mk_gen { chunks : list str; failure : option exn }.

(** What [rag.query] hands back. *)
Inductive response :=
| Text (t : str)
| AsyncGen (g : generator).

(** What [query_engine.query] hands back: an object with a
    [response_gen] attribute, one with a [response] attribute, or
    anything else (of which only [str(response)] is used). *)
Inductive engine_response :=
| StreamingResponse (response_gen : generator)
| Response (text : str)
| OtherResponse (as_str : str).

(** llama_index [Document]. *)
Record document := mk_doc { doc_text : str; doc_file : str }.

(** Keyword arguments of [index.as_query_engine]. *)
Record engine_kwargs := mk_kwargs {
  similarity_top_k : Z;
  retriever_mode : str;
  streaming : bool;
  response_mode : str
}.

(** Calls into the external libraries, as a spy would record them. *)
Inductive call :=
| NewLightRAG (full_parameters : bool)
| InitializeStorages
| InitializePipelineStatus
| RagInsert (content : str)
| RagQuery (query : str) (param : QueryParam)
| PersistentClient (path : str)
| GetOrCreateCollection (name : str)
| CollectionCount
| LoadData (dir : str)
| FromDocuments (documents : list document)
| FromVectorStore
| AsQueryEngine (kwargs : engine_kwargs)
| EngineQuery (prompt : str)
| OsSystem (command : str).

Inductive event :=
| Print (text : str)              (* written to stdout *)
| Log (lvl : level) (msg : str)   (* a logging record *)
| PrintExc (e : exn)              (* traceback.print_exc() *)
| Call (c : call).

(** ** File system *)

Inductive entry :=
| RegularFile (data : list byte)
| LockedFile                      (* a regular file that cannot be opened *)
| Directory.

(** What the operating system answers at a path, for the calls the
    scripts make on it: [os.path.exists], [os.makedirs] / [os.mkdir] and
    [os.listdir].  The states are the possible answers, whatever their
    cause. *)
Inductive path_state :=
| Missing                         (* nothing there; a directory can be made *)
| Blocked (on_create on_list : exn)
    (* [os.path.exists] is false and no directory can be made:
       [os.makedirs] and [os.mkdir] raise [on_create], [os.listdir]
       raises [on_list] (a dangling symbolic link, a parent directory
       that cannot be written or searched, a read-only file system) *)
| NotDir                          (* exists and is not a directory *)
| Unreadable (on_list : exn)
    (* a directory that exists and cannot be listed: [os.listdir]
       raises [on_list] ([PermissionError], an I/O error) *)
| IsDir (listing : list (str * entry)).

(** [os.path.exists] *)
Definition present (st : path_state) : bool :=
  match st with
  | Missing | Blocked _ _ => false
  | NotDir | Unreadable _ | IsDir _ => true
  end.

Definition blocked (st : path_state) : bool :=
  match st with Blocked _ _ => true | _ => false end.

Definition fsys := str -> path_state.

Record world (Store : Type) := mk_world {
  trace : list event;
  fs : fsys;
  store : Store
}.

Section Ops.
Variable Store : Type.
Local Abbreviation W := (world Store).

Definition emit (e : event) : M W unit :=
  fun w => (Return tt, mk_world (trace w ++ [e]) (fs w) (store w)).

(** [print(a, b, ..., end=end_)] *)
Definition print_end (args : list str) (end_ : str) : M W unit :=
  emit (Print (join_sp args ++ end_)).

(** [print(a, b, ...)] *)
Definition print (args : list str) : M W unit := print_end args [10%N].

Definition log (lvl : level) (msg : str) : M W unit := emit (Log lvl msg).

(** A call into an external library: recorded, then answered by the
    library, which may change its state or raise. *)
Definition external {A} (c : call) (f : Store -> outcome A * Store) : M W A :=
  fun w =>
    let (r, s') := f (store w) in
    (r, mk_world (trace w ++ [Call c]) (fs w) s').

(** [os.path.exists(p)] *)
Definition path_exists (p : str) : M W bool :=
  fun w => (Return (present (fs w p)), w).

(** The file system once an empty directory has been made at [p].  Only
    the state of [p] itself is recorded: the scripts never look at the
    directory that holds it. *)
Definition with_new_dir (f : fsys) (p : str) : fsys :=
  fun q => if str_eqb q p then IsDir [] else f q.

Definition file_exists (p : str) : exn :=
  mk_exn FileExistsError (u "[Errno 17] File exists: '" ++ p ++ u "'").

(** [os.makedirs(p, exist_ok=True)]: it raises when the directory
    cannot be made or the path is taken by something else, and lets an
    existing directory be. *)
Definition makedirs (p : str) : M W unit :=
  fun w =>
    match fs w p with
    | Missing => (Return tt, mk_world (trace w) (with_new_dir (fs w) p) (store w))
    | Blocked e _ => (Raise e, w)
    | NotDir => (Raise (file_exists p), w)
    | Unreadable _ | IsDir _ => (Return tt, w)
    end.

(** [os.mkdir(p)]: as [os.makedirs], but anything that exists is an
    error. *)
Definition mkdir (p : str) : M W unit :=
  fun w =>
    match fs w p with
    | Missing => (Return tt, mk_world (trace w) (with_new_dir (fs w) p) (store w))
    | Blocked e _ => (Raise e, w)
    | NotDir | Unreadable _ | IsDir _ => (Raise (file_exists p), w)
    end.

(** [os.listdir(p)]: the entries in directory order.  (Each name is
    paired with the entry that [os.path.join(p, name)] resolves to.) *)
Definition listdir (p : str) : M W (list (str * entry)) :=
  fun w =>
    match fs w p with
    | IsDir l => (Return l, w)
    | Missing =>
        (Raise (mk_exn FileNotFoundError
                       (u "[Errno 2] No such file or directory: '" ++ p ++ u "'")), w)
    | Blocked _ e => (Raise e, w)
    | NotDir =>
        (Raise (mk_exn NotADirectoryError
                       (u "[Errno 20] Not a directory: '" ++ p ++ u "'")), w)
    | Unreadable e => (Raise e, w)
    end.

(** [os.path.isfile] *)
Definition isfile (e : entry) : bool :=
  match e with RegularFile _ | LockedFile => true | Directory => false end.

(** [with open(path, "r", encoding="utf-8") as f: f.read()].  The
    message of the exception raised is abbreviated: the byte, its
    position and the path are left out. *)
Definition open_read (e : entry) : M W str :=
  match e with
  | RegularFile data =>
      match decode data with
      | Some t => ret (universal_newlines t)
      | None => raise (mk_exn UnicodeDecodeError
                              (u "'utf-8' codec can't decode byte"))
      end
  | LockedFile => raise (mk_exn PermissionError (u "[Errno 13] Permission denied"))
  | Directory => raise (mk_exn PermissionError (u "[Errno 21] Is a directory"))
  end.
End Ops.

(** The LightRAG library, as far as the scripts call it. *)
Record lightrag_api (Store : Type) := mk_api {
  new_LightRAG : bool -> Store -> outcome unit * Store;
  initialize_storages : Store -> outcome unit * Store;
  initialize_pipeline_status : Store -> outcome unit * Store;
  rag_insert : str -> Store -> outcome unit * Store;
  rag_query : str -> QueryParam -> Store -> outcome response * Store
}.

(** llama_index and chromadb, as far as [common_rag.py] calls them. *)
Record llama_api (Store : Type) := mk_llama {
  persistent_client : str -> Store -> outcome unit * Store;
  get_or_create_collection : str -> Store -> outcome unit * Store;
  collection_count : Store -> outcome nat * Store;
  load_data : str -> fsys -> outcome (list document);
  from_documents : list document -> Store -> outcome unit * Store;
  from_vector_store : Store -> outcome unit * Store;
  engine_query : engine_kwargs -> str -> Store -> outcome engine_response * Store
}.

(** The handle returned by [LightRAG(...)]. *)
Inductive LightRAG := rag_handle.

(** [str] of an async generator object, without its name and address. *)
Definition asyncgen_repr : str := u "<async_generator object>".

(** [str(resp)], as [print(resp)] shows it. *)
Definition str_of_response (r : response) : str :=
  match r with
  | Text t => t
  | AsyncGen _ => asyncgen_repr
  end.

(** The events of a trace that are calls. *)
Definition calls (tr : list event) : list call :=
  flat_map (fun e => match e with Call c => [c] | _ => [] end) tr.

Definition printed (tr : list event) : list str :=
  flat_map (fun e => match e with Print t => [t] | _ => [] end) tr.


Definition count_calls (p : call -> bool) (tr : list event) : nat :=
  List.length (filter p (calls tr)).

(** Ingestion: reading the corpus and inserting into the store. *)
Definition is_ingestion (c : call) : bool :=
  match c with
  | RagInsert _ | FromDocuments _ | LoadData _ => true
  | _ => false
  end.

Definition is_count (c : call) : bool :=
  match c with CollectionCount => true | _ => false end.

Definition not_ingestion (e : event) : Prop :=
  match e with
  | Call c => is_ingestion c = false
  | _ => True
  end.

(** [m] only appends to the trace, and only events that satisfy [P]. *)
Definition only {Store A} (P : event -> Prop) (m : M (world Store) A) : Prop :=
  forall w, exists evs, trace (snd (m w)) = trace w ++ evs /\ Forall P evs.

(** The elements of [l] before the first one that satisfies [p]. *)
Fixpoint take_until {A} (p : A -> bool) (l : list A) : list A :=
  match l with
  | [] => []
  | x :: rest => if p x then [] else x :: take_until p rest
  end.

(** A [rag.query] call that asks for a stream. *)
Definition is_stream_query (c : call) : bool :=
  match c with RagQuery _ param => stream param | _ => false end.

Definition is_constructor (c : call) : bool :=
  match c with NewLightRAG _ => true | _ => false end.

(** The text that reading an entry in text mode yields, if any. *)
Definition text_of (e : entry) : option str :=
  match e with
  | RegularFile data => option_map universal_newlines (decode data)
  | LockedFile | Directory => None
  end.

(** The texts of the entries of a directory that can be read, in
    directory order. *)
Definition texts_of (listing : list (str * entry)) : list str :=
  flat_map (fun named => match text_of (snd named) with
                         | Some t => [t]
                         | None => []
                         end) listing.

(** Every regular file of the directory opens and decodes. *)
Definition readable (listing : list (str * entry)) : Prop :=
  forall filename file,
    In (filename, file) listing -> isfile file = true -> text_of file <> None.

(** What [input] raises when the typed lines have run out. *)
Definition end_of_input : exn := mk_exn EOFError (u "EOF when reading a line").

(** [m] returns normally from every world. *)
Definition total {Store A} (m : M (world Store) A) : Prop :=
  forall w, exists a w', m w = (Return a, w').

End Env.

Import Env.
Arguments emit {Store} e.
Arguments print_end {Store} args end_.
Arguments print {Store} args.
Arguments log {Store} lvl msg.
Arguments external {Store A} c f.
Arguments path_exists {Store} p.
Arguments makedirs {Store} p.
Arguments mkdir {Store} p.
Arguments listdir {Store} p.
Arguments open_read {Store} e.

(* ================================================================== *)
(** * lightrag.py *)
(* ================================================================== *)

Module LightRag.

Definition WORKING_DIR : str := u "./dickens2".
Definition DOCS_DIR : str := u "./docs".
Arguments WORKING_DIR : simpl never.
Arguments DOCS_DIR : simpl never.

Section Script.
Variable unicode_lower : N -> list N.
Variable Store : Type.
Variable api : lightrag_api Store.
Local Abbreviation W := (world Store).

(** Module level: [if not os.path.exists(WORKING_DIR): os.mkdir(WORKING_DIR)] *)
Definition module_init : M W unit :=
  ex <- path_exists WORKING_DIR ;;
  if negb ex then mkdir WORKING_DIR else ret tt.

Definition initialize_rag : M W LightRAG :=
  external (NewLightRAG true) (new_LightRAG api true) ;;
  external InitializeStorages (initialize_storages api) ;;
  external InitializePipelineStatus (initialize_pipeline_status api) ;;
  ret rag_handle.

Definition print_stream (stream : generator) : M W unit :=
  for_each (chunks stream) (fun chunk => print_end [chunk] []) ;;
  match failure stream with
  | Some e => raise e
  | None => ret tt
  end.

Definition load_docs_from_folder (folder_path : str) (rag : LightRAG) : M W unit :=
  log INFO (u "Loading docs from " ++ folder_path) ;;
  names <- listdir folder_path ;;
  for_each names (fun '(filename, file) =>
    if isfile file then
      content <- open_read file ;;
      external (RagInsert content) (rag_insert api content)
    else ret tt).

Definition query_rag (query : str) (rag : LightRAG) : M W unit :=
  let param := mk_param (u "global") true in
  resp <- external (RagQuery query param) (rag_query api query param) ;;
  match resp with
  | AsyncGen g => print_stream g
  | Text t => print [t]
  end.

Definition prompt : str := 10%N :: u "User ask: ".

(** The [while True] loop, over the lines typed by the user; [input]
    raises [EOFError] once they run out. *)
Fixpoint session (inputs : list str) (rag : LightRAG) : M W unit :=
  match inputs with
  | [] => print_end [prompt] [] ;;
          raise (mk_exn EOFError (u "EOF when reading a line"))
  | query :: rest =>
      print_end [prompt] [] ;;
      if existsb (str_eqb (lower unicode_lower query)) [u "exit"; u "quit"]
      then ret tt
      else query_rag query rag ;; session rest rag
  end.

(** The test that ends the loop: the line as typed, lowered. *)
Definition is_exit (line : str) : bool :=
  existsb (str_eqb (lower unicode_lower line)) [u "exit"; u "quit"].

Definition main (inputs : list str) : M W unit :=
  module_init ;;
  try_except
    (rag <- initialize_rag ;;
     load_docs_from_folder DOCS_DIR rag ;;
     print [10%N :: u "RAG system ready. Type 'exit' or 'quit' to end."] ;;
     session inputs rag)
    (fun e => log ERROR (u "Fatal error: " ++ exn_msg e)).
End Script.

End LightRag.

(* ================================================================== *)
(** * lightrag-demo.py *)
(* ================================================================== *)

Module LightRagDemo.

Definition WORKING_DIR : str := u "./dickens2".
Definition DOCS_DIR : str := u "./docs".
Definition SUPPORTED_FILE_EXTENSIONS : list str :=
  [u ".txt"; u ".md"; u ".doc"; u ".docx"; u ".pdf"].
Arguments WORKING_DIR : simpl never.
Arguments DOCS_DIR : simpl never.

(** The two local counters of [load_docs_from_folder]. *)
Record counters := mk_counters { loaded_count : nat; failed_count : nat }.

(** The ingestion report of the specification: five counters. *)
Record IngestionReport := mk_report {
  loaded : nat;
  skipped_empty : nat;
  skipped_unsupported : nat;
  failed_decode : nat;
  failed_other : nat
}.

(** The ways a directory entry can fare in a loading pass, in the
    specification's terms. *)
Inductive file_class :=
| Loaded (content : str)
| SkippedEmpty
| SkippedUnsupported
| FailedDecode
| FailedOther
| NotRegular.

Definition is_loaded (k : file_class) : bool :=
  match k with Loaded _ => true | _ => false end.
Definition is_skipped_empty (k : file_class) : bool :=
  match k with SkippedEmpty => true | _ => false end.
Definition is_skipped_unsupported (k : file_class) : bool :=
  match k with SkippedUnsupported => true | _ => false end.
Definition is_failed_decode (k : file_class) : bool :=
  match k with FailedDecode => true | _ => false end.
Definition is_failed_other (k : file_class) : bool :=
  match k with FailedOther => true | _ => false end.
Definition is_failed (k : file_class) : bool :=
  is_failed_decode k || is_failed_other k.

(** How one entry moves the two counters of the script. *)
Definition tally (c : counters) (k : file_class) : counters :=
  match k with
  | Loaded _ => mk_counters (S (loaded_count c)) (failed_count c)
  | FailedDecode | FailedOther => mk_counters (loaded_count c) (S (failed_count c))
  | SkippedEmpty | SkippedUnsupported | NotRegular => c
  end.

Section Script.
Variable unicode_lower : N -> list N.
Variable Store : Type.
Variable api : lightrag_api Store.
Local Abbreviation W := (world Store).

Definition ensure_directories : M W unit :=
  for_each [WORKING_DIR; DOCS_DIR] (fun directory =>
    ex <- path_exists directory ;;
    if negb ex then
      makedirs directory ;;
      log INFO (u "创建目录: " ++ directory)
    else ret tt).

(** [new_LightRAG] stands for the [LightRAG(...)] call.  The
    [EmbeddingFunc(...)] record built from constants just before it, in
    the same [try], is taken to return. *)
Definition initialize_rag : M W (option LightRAG) :=
  try_except
    (external (NewLightRAG true) (new_LightRAG api true) ;;
     log INFO (u "LightRAG 实例创建成功") ;;
     external InitializeStorages (initialize_storages api) ;;
     log INFO (u "存储初始化完成") ;;
     external InitializePipelineStatus (initialize_pipeline_status api) ;;
     log INFO (u "管道状态初始化完成") ;;
     ret (Some rag_handle))
    (fun e =>
       if is_TypeError e then
         log WARNING (u "使用完整参数初始化失败: " ++ exn_msg e) ;;
         log INFO (u "尝试使用基础参数初始化...") ;;
         try_except
           (external (NewLightRAG false) (new_LightRAG api false) ;;
            external InitializeStorages (initialize_storages api) ;;
            log INFO (u "使用基础参数初始化成功") ;;
            ret (Some rag_handle))
           (fun e2 =>
              log ERROR (u "基础参数初始化也失败: " ++ exn_msg e2) ;;
              ret None)
       else
         log ERROR (u "初始化 RAG 系统时发生未知错误: " ++ exn_msg e) ;;
         emit (PrintExc e) ;;
         ret None).

Definition print_stream (stream : generator) : M W unit :=
  try_except
    (for_each (chunks stream) (fun chunk => print_end [chunk] []) ;;
     match failure stream with
     | Some e => raise e
     | None => ret tt
     end ;;
     print [])
    (fun e => log ERROR (u "打印流式响应时出错: " ++ exn_msg e)).

Definition is_supported_file (filename : str) : bool :=
  let (_, ext) := splitext (lower unicode_lower filename) in
  existsb (str_eqb ext) SUPPORTED_FILE_EXTENSIONS.

(** The body of the [for filename in os.listdir(folder_path)] loop. *)
Definition load_file (filename : str) (file : entry) (c : counters)
  : M W counters :=
  if negb (isfile file) || negb (is_supported_file filename) then ret c
  else
    try_except
      (content <- open_read file ;;
       if is_empty (strip content) then
         log WARNING (u "文件 " ++ filename ++ u " 为空，跳过") ;;
         ret c
       else
         external (RagInsert content) (rag_insert api content) ;;
         log INFO (u "✅ 成功加载: " ++ filename ++ u " ("
                     ++ str_of_nat (List.length content) ++ u " 字符)") ;;
         ret (mk_counters (S (loaded_count c)) (failed_count c)))
      (fun e =>
         if is_UnicodeDecodeError e then
           log WARNING (u "❌ 编码错误，跳过文件: " ++ filename) ;;
           ret (mk_counters (loaded_count c) (S (failed_count c)))
         else
           log ERROR (u "❌ 加载文件 " ++ filename ++ u " 时出错: " ++ exn_msg e) ;;
           ret (mk_counters (loaded_count c) (S (failed_count c)))).

Fixpoint load_files (names : list (str * entry)) (c : counters)
  : M W counters :=
  match names with
  | [] => ret c
  | (filename, file) :: rest =>
      c' <- load_file filename file c ;;
      load_files rest c'
  end.

Definition summary (c : counters) : str :=
  u "文档加载完成: 成功 " ++ str_of_nat (loaded_count c)
    ++ u " 个，失败 " ++ str_of_nat (failed_count c) ++ u " 个".

Definition load_docs_from_folder (folder_path : str) (rag : LightRAG)
  : M W nat :=
  ex <- path_exists folder_path ;;
  if negb ex then
    log WARNING (u "文档文件夹不存在: " ++ folder_path) ;;
    log INFO (u "请在 " ++ folder_path ++ u " 目录下放置您的文档文件") ;;
    ret 0
  else
    log INFO (u "开始从 " ++ folder_path ++ u " 加载文档...") ;;
    names <- listdir folder_path ;;
    c <- load_files names (mk_counters 0 0) ;;
    log INFO (summary c) ;;
    ret (loaded_count c).

(** *** The specification's view of a directory

    An entry that is not a regular file is passed over; a regular file
    outside the allow-list is unsupported; a supported file that cannot
    be opened or decoded has failed; one whose text is only white space
    is empty; any other is loaded with the text read from it. *)
Definition classify (named : str * entry) : file_class :=
  let (filename, file) := named in
  if negb (isfile file) then NotRegular
  else if negb (is_supported_file filename) then SkippedUnsupported
  else match file with
       | RegularFile data =>
           match decode data with
           | None => FailedDecode
           | Some t =>
               if is_empty (strip (universal_newlines t)) then SkippedEmpty
               else Loaded (universal_newlines t)
           end
       | LockedFile => FailedOther
       | Directory => NotRegular
       end.

Definition count_class (p : file_class -> bool) (listing : list (str * entry)) : nat :=
  List.length (filter (fun named => p (classify named)) listing).

Definition loaded_contents (listing : list (str * entry)) : list str :=
  flat_map (fun named => match classify named with
                         | Loaded content => [content]
                         | _ => []
                         end) listing.

Definition spec_report (listing : list (str * entry)) : IngestionReport :=
  mk_report (count_class is_loaded listing)
            (count_class is_skipped_empty listing)
            (count_class is_skipped_unsupported listing)
            (count_class is_failed_decode listing)
            (count_class is_failed_other listing).

(** [rag.insert] does not raise. *)
Definition insert_succeeds : Prop :=
  forall content s, fst (rag_insert api content s) = Return tt.

Definition failure_message : str := u "抱歉，查询失败。请检查您的查询或系统状态。".

(** The body of the outer [try] of [query_rag_async]. *)
Definition streaming_attempt (query : str) (rag : LightRAG) : M W unit :=
  let param := mk_param (u "global") true in
  resp <- external (RagQuery query param) (rag_query api query param) ;;
  match resp with
  | AsyncGen g => print_stream g
  | Text t => print [t]
  end.

(** The body of the inner [try], in the handler of the outer one. *)
Definition fallback_attempt (query : str) (rag : LightRAG) : M W unit :=
  log INFO (u "尝试非流式查询...") ;;
  let param := mk_param (u "global") false in
  resp <- external (RagQuery query param) (rag_query api query param) ;;
  print [str_of_response resp].

Definition query_rag_async (query : str) (rag : LightRAG) : M W unit :=
  try_except
    (streaming_attempt query rag)
    (fun e =>
       log ERROR (u "查询时出错: " ++ exn_msg e) ;;
       try_except
         (fallback_attempt query rag)
         (fun e2 =>
            log ERROR (u "非流式查询也失败: " ++ exn_msg e2) ;;
            print [failure_message])).

(** [asyncio.run(query_rag_async(query, rag))] *)
Definition query_rag (query : str) (rag : LightRAG) : M W unit :=
  query_rag_async query rag.

Definition print_welcome_message : M W unit :=
  print [repeat 61%N 60] ;;
  print [u "🚀 LightRAG 系统启动成功!"] ;;
  print [repeat 61%N 60] ;;
  print [u "使用说明:"] ;;
  print [u "- 输入您的问题进行查询"] ;;
  print [u "- 输入 'exit' 或 'quit' 退出系统"] ;;
  print [u "- 输入 'help' 查看更多命令"] ;;
  print [repeat 61%N 60].

Definition print_help : M W unit :=
  print [10%N :: u "📚 可用命令:"] ;;
  print [u "  exit/quit - 退出系统"] ;;
  print [u "  help      - 显示此帮助信息"] ;;
  print [u "  clear     - 清屏"] ;;
  print [u "  status    - 显示系统状态"].

Definition prompt : str := 10%N :: u "💬 请输入您的问题: ".

Definition is_in (s : str) (l : list str) : bool := existsb (str_eqb s) l.

(** The [while True] loop of [main], over the lines typed by the user. *)
Fixpoint session (inputs : list str) (rag : LightRAG) (doc_count : nat)
  : M W unit :=
  match inputs with
  | [] => print_end [prompt] [] ;;
          raise (mk_exn EOFError (u "EOF when reading a line"))
  | line :: rest =>
      print_end [prompt] [] ;;
      let query := strip line in
      if is_empty query then session rest rag doc_count
      else if is_in (lower unicode_lower query) [u "exit"; u "quit"; u "退出"]
      then print [u "👋 再见!"]
      else if is_in (lower unicode_lower query) [u "help"; u "帮助"]
      then print_help ;; session rest rag doc_count
      else if str_eqb (lower unicode_lower query) (u "clear")
      then emit (Call (OsSystem (u "clear"))) ;; session rest rag doc_count
      else if str_eqb (lower unicode_lower query) (u "status")
      then print [u "📊 系统状态: 运行中 | 工作目录: " ++ WORKING_DIR
                    ++ u " | 文档数: " ++ str_of_nat doc_count] ;;
           session rest rag doc_count
      else
        print [10%N :: u "🔍 正在查询..."] ;;
        print [repeat 45%N 50] ;;            (* "-" * 50 *)
        query_rag query rag ;;
        print [repeat 45%N 50] ;;
        session rest rag doc_count
  end.

(** A typed line that is neither blank nor one of the commands: it is
    sent to [query_rag]. *)
Definition is_question (line : str) : bool :=
  let query := lower unicode_lower (strip line) in
  negb (is_empty (strip line))
  && negb (is_in query [u "exit"; u "quit"; u "退出"])
  && negb (is_in query [u "help"; u "帮助"])
  && negb (str_eqb query (u "clear"))
  && negb (str_eqb query (u "status")).

(** A typed line that ends the loop: one of the exit words, whatever
    its letter case and the white space around it. *)
Definition is_exit (line : str) : bool :=
  negb (is_empty (strip line))
  && is_in (lower unicode_lower (strip line)) [u "exit"; u "quit"; u "退出"].

Definition main (inputs : list str) : M W unit :=
  ensure_directories ;;
  log INFO (u "正在初始化 LightRAG 系统...") ;;
  rag <- initialize_rag ;;
  match rag with
  | None => log ERROR (u "RAG 系统初始化失败，程序退出")
  | Some rag =>
      doc_count <- load_docs_from_folder DOCS_DIR rag ;;
      (if Nat.eqb doc_count 0
       then log WARNING (u "没有加载任何文档，系统将正常运行但可能无法提供有用的答案")
       else ret tt) ;;
      print_welcome_message ;;
      try_except
        (session inputs rag doc_count)
        (fun e =>
           log ERROR (u "主循环中发生错误: " ++ exn_msg e) ;;
           emit (PrintExc e))
  end.

(** [if __name__ == "__main__"] *)
Definition program (inputs : list str) : M W unit :=
  try_except
    (main inputs)
    (fun e =>
       log ERROR (u "程序启动失败: " ++ exn_msg e) ;;
       emit (PrintExc e)).
End Script.

End LightRagDemo.

(* ================================================================== *)
(** * common_rag.py *)
(* ================================================================== *)

Module CommonRag.

Definition CHROMA_DB_PATH : str := u "./chroma_db".
Definition DOCS_DIR : str := u "./docs".
Definition COLLECTION_NAME : str := u "my_collection".
Arguments CHROMA_DB_PATH : simpl never.
Arguments DOCS_DIR : simpl never.
Arguments COLLECTION_NAME : simpl never.

(** A [VectorStoreIndex] over the Chroma vector store: built from
    documents, or bound to what the store already holds. *)
Record VectorStoreIndex := mk_index { built_from : option (list document) }.

Record query_engine := mk_engine {
  engine_index : VectorStoreIndex;
  engine_config : engine_kwargs
}.

Section Script.
Variable unicode_lower : N -> list N.
Variable Store : Type.
Variable api : llama_api Store.
Local Abbreviation W := (world Store).

(** [SimpleDirectoryReader(dir).load_data()] *)
Definition read_directory (dir : str) : M W (list document) :=
  fun w =>
    (load_data api dir (fs w),
     mk_world (trace w ++ [Call (LoadData dir)]) (fs w) (store w)).

Definition initialize_or_load_vector_store : M W VectorStoreIndex :=
  external (PersistentClient CHROMA_DB_PATH)
           (persistent_client api CHROMA_DB_PATH) ;;
  external (GetOrCreateCollection COLLECTION_NAME)
           (get_or_create_collection api COLLECTION_NAME) ;;
  count <- external CollectionCount (collection_count api) ;;
  if Nat.eqb count 0 then
    log INFO (u "Vector store is empty, creating new index...") ;;
    documents <- read_directory DOCS_DIR ;;
    external (FromDocuments documents) (from_documents api documents) ;;
    ret (mk_index (Some documents))
  else
    log INFO (u "Loading existing vector store...") ;;
    external FromVectorStore (from_vector_store api) ;;
    ret (mk_index None).

(** [index.as_query_engine(...)] *)
Definition as_query_engine (index : VectorStoreIndex) (kwargs : engine_kwargs)
  : M W query_engine :=
  emit (Call (AsQueryEngine kwargs)) ;;
  ret (mk_engine index kwargs).

(** [similarity_top_k=5] and [retriever_mode="embedding"] are the
    defaults of the two optional parameters. *)
Definition create_query_engine (index : VectorStoreIndex)
           (similarity_top_k : option Z) (retriever_mode : option str)
  : M W query_engine :=
  as_query_engine index
    (mk_kwargs
       (match similarity_top_k with Some k => k | None => 5%Z end)
       (match retriever_mode with Some m => m | None => u "embedding" end)
       true
       (u "compact")).

(** The [for token in response_gen] loop: [full_response += token]
    (the [print(token, ...)] line of the loop is commented out). *)
Fixpoint accumulate (tokens : list str) (full_response : str) : str :=
  match tokens with
  | [] => full_response
  | token :: rest => accumulate rest (full_response ++ token)
  end.

Definition stream_response (response_gen : generator) : M W str :=
  print_end [u "Bot: "] [] ;;
  let full_response := accumulate (chunks response_gen) [] in
  match failure response_gen with
  | Some e => raise e
  | None => ret tt
  end ;;
  print [] ;;
  ret full_response.

(** The body of the [try] of [query_rag]. *)
Definition query_attempt (prompt : str) (engine : query_engine) : M W str :=
  response <- external (EngineQuery prompt)
                       (engine_query api (engine_config engine) prompt) ;;
  match response with
  | StreamingResponse response_gen => stream_response response_gen
  | Response text => print [u "Bot:"; text] ;; ret text
  | OtherResponse text => print [u "Bot:"; text] ;; ret text
  end.

Definition error_msg (e : exn) : str :=
  u "Error processing your request: " ++ exn_msg e.

Definition query_rag (prompt : str) (engine : query_engine) : M W str :=
  try_except
    (query_attempt prompt engine)
    (fun e =>
       log ERROR (u "Query error: " ++ exn_msg e) ;;
       print [u "Bot:"; error_msg e] ;;
       ret (error_msg e)).

Definition prompt : str := 10%N :: u "User: ".

(** The [while True] loop, over the lines typed by the user. *)
Fixpoint session (inputs : list str) (engine : query_engine) : M W unit :=
  match inputs with
  | [] => print_end [prompt] [] ;;
          raise (mk_exn EOFError (u "EOF when reading a line"))
  | query :: rest =>
      print_end [prompt] [] ;;
      if existsb (str_eqb (lower unicode_lower query)) [u "exit"; u "quit"]
      then ret tt
      else
        answer <- query_rag query engine ;;
        print [u "Bot:"; answer] ;;
        session rest engine
  end.

(** The test that ends the loop: the line as typed, lowered. *)
Definition is_exit (line : str) : bool :=
  existsb (str_eqb (lower unicode_lower line)) [u "exit"; u "quit"].


(** The Chroma client and the collection open, and the collection
    reports [count] records, leaving the store in state [s]. *)
Definition opens (w : W) (count : nat) (s : Store) : Prop :=
  exists s1 s2,
    persistent_client api CHROMA_DB_PATH (store w) = (Return tt, s1)
    /\ get_or_create_collection api COLLECTION_NAME s1 = (Return tt, s2)
    /\ collection_count api s2 = (Return count, s).

(** The calls that open the store and ask for its record count. *)
Definition opening : list event :=
  [ Call (PersistentClient CHROMA_DB_PATH);
    Call (GetOrCreateCollection COLLECTION_NAME);
    Call CollectionCount ].

(** The empty branch, seen from outside: the corpus directory is read
    and the documents read are handed to [from_documents]. *)
Definition builds_new_index (w : W) (s : Store)
  : outcome VectorStoreIndex * W :=
  match load_data api DOCS_DIR (fs w) with
  | Return documents =>
      let (r, s') := from_documents api documents s in
      (match r with
       | Return _ => Return (mk_index (Some documents))
       | Raise e => Raise e
       end,
       mk_world (trace w ++ opening
                   ++ [ Log INFO (u "Vector store is empty, creating new index...");
                        Call (LoadData DOCS_DIR);
                        Call (FromDocuments documents) ])
                (fs w) s')
  | Raise e =>
      (Raise e,
       mk_world (trace w ++ opening
                   ++ [ Log INFO (u "Vector store is empty, creating new index...");
                        Call (LoadData DOCS_DIR) ])
                (fs w) s)
  end.

(** The populated branch, seen from outside: the index is bound to the
    vector store as it is. *)
Definition binds_existing_store (w : W) (s : Store)
  : outcome VectorStoreIndex * W :=
  let (r, s') := from_vector_store api s in
  (match r with
   | Return _ => Return (mk_index None)
   | Raise e => Raise e
   end,
   mk_world (trace w ++ opening
               ++ [ Log INFO (u "Loading existing vector store...");
                    Call FromVectorStore ])
            (fs w) s').

Definition main (inputs : list str) : M W unit :=
  try_except
    (index <- initialize_or_load_vector_store ;;
     engine <- create_query_engine index (Some 20%Z) (Some (u "embedding")) ;;
     print [10%N :: u "RAG system ready. Type 'exit' or 'quit' to end."] ;;
     session inputs engine)
    (fun e => log ERROR (u "Fatal error: " ++ exn_msg e)).
End Script.

End CommonRag.

(* ================================================================== *)
(** * Concrete environments *)
(* ================================================================== *)

Module Fixtures.

(** A fragment of the Unicode lower-case table: the Latin-1 capitals,
    U+0130 (which lowers to two code points) and the Kelvin sign. *)
Definition sample_unicode_lower (c : N) : list N :=
  if ((192 <=? c) && (c <=? 222) && negb (c =? 215))%N then [(c + 32)%N]
  else if (c =? 304)%N then [105%N; 775%N]
  else if (c =? 8490)%N then [107%N]
  else [c].

(** A LightRAG instance that keeps the inserted texts and answers the
    queries from a script, one scripted outcome per call. *)
Record fake_rag := mk_fake {
  inserted : list str;
  script : list (outcome response)
}.

Definition fake_api : lightrag_api fake_rag :=
  mk_api
    (fun _ s => (Return tt, s))
    (fun s => (Return tt, s))
    (fun s => (Return tt, s))
    (fun content s => (Return tt, mk_fake (inserted s ++ [content]) (script s)))
    (fun _ _ s =>
       match script s with
       | [] => (Return (Text []), s)
       | r :: rest => (r, mk_fake (inserted s) rest)
       end).

(** A Chroma collection with [records] records behind llama_index; the
    directory reader yields one document per regular file that decodes. *)
Record fake_chroma := mk_chroma {
  records : nat;
  answers : list (outcome engine_response)
}.

Definition fake_reader (dir : str) (f : fsys) : outcome (list document) :=
  match f dir with
  | IsDir l =>
      Return (flat_map (fun '(name, e) =>
                          match e with
                          | RegularFile data =>
                              match decode data with
                              | Some t => [mk_doc t (path_join dir name)]
                              | None => []
                              end
                          | _ => []
                          end) l)
  | _ => Raise (mk_exn ValueError (u "Directory does not exist."))
  end.

Definition fake_llama : llama_api fake_chroma :=
  mk_llama
    (fun _ s => (Return tt, s))
    (fun _ s => (Return tt, s))
    (fun s => (Return (records s), s))
    fake_reader
    (fun docs s => (Return tt, mk_chroma (records s + List.length docs) (answers s)))
    (fun s => (Return tt, s))
    (fun _ _ s =>
       match answers s with
       | [] => (Return (Response []), s)
       | r :: rest => (r, mk_chroma (records s) rest)
       end).

Definition bytes_of (s : string) : list byte := list_byte_of_string s.

(** One valid text file, one whitespace-only file, one file that is not
    UTF-8, one file with an extension outside the allow-list. *)
Definition four_files : list (str * entry) :=
  [ (u "notes.txt", RegularFile (bytes_of "The cat sat."));
    (u "blank.md", RegularFile (bytes_of "   "));
    (u "broken.txt", RegularFile [xff; xfe; x41]);
    (u "photo.png", RegularFile (bytes_of "PNG")) ].

Definition five_files : list (str * entry) :=
  four_files ++ [ (u "chart.csv", RegularFile (bytes_of "a,b")) ].

(** A valid file, a file that is not UTF-8, another valid file. *)
Definition three_files : list (str * entry) :=
  [ (u "notes.txt", RegularFile (bytes_of "The cat sat."));
    (u "broken.txt", RegularFile [xff; xfe; x41]);
    (u "more.txt", RegularFile (bytes_of "The dog ran.")) ].

Definition one_file : list (str * entry) :=
  [ (u "notes.txt", RegularFile (bytes_of "The cat sat.")) ].

Definition docs_with (l : list (str * entry)) : fsys :=
  fun p => if str_eqb p (u "./docs") then IsDir l else Missing.

Definition no_docs : fsys := fun _ => Missing.

Definition boom : exn := mk_exn RuntimeError (u "connection reset").

(** llama_index over a Chroma store that cannot be opened. *)
Definition down_llama : llama_api fake_chroma :=
  mk_llama
    (fun _ s => (Raise (mk_exn RuntimeError (u "database is locked")), s))
    (get_or_create_collection fake_llama)
    (collection_count fake_llama)
    (load_data fake_llama)
    (from_documents fake_llama)
    (from_vector_store fake_llama)
    (engine_query fake_llama).

(** A LightRAG library whose constructor fails. *)
Definition failing_api (e : exn) : lightrag_api fake_rag :=
  mk_api
    (fun _ s => (Raise e, s))
    (initialize_storages fake_api)
    (initialize_pipeline_status fake_api)
    (rag_insert fake_api)
    (rag_query fake_api).

(** A LightRAG library whose insert fails. *)
Definition no_insert_api : lightrag_api fake_rag :=
  mk_api
    (new_LightRAG fake_api)
    (initialize_storages fake_api)
    (initialize_pipeline_status fake_api)
    (fun _ s => (Raise boom, s))
    (rag_query fake_api).

(** The corpus path taken by a regular file. *)
Definition docs_is_a_file : fsys :=
  fun p => if str_eqb p (u "./docs") then NotDir else Missing.

Definition permission_denied : exn :=
  mk_exn PermissionError (u "[Errno 13] Permission denied: './docs'").

(** A dangling symbolic link where the corpus directory should be. *)
Definition docs_is_dangling : fsys :=
  fun p => if str_eqb p (u "./docs")
           then Blocked (file_exists (u "./docs"))
                        (mk_exn FileNotFoundError
                                (u "[Errno 2] No such file or directory: './docs'"))
           else Missing.

(** A corpus directory without read permission. *)
Definition docs_is_closed : fsys :=
  fun p => if str_eqb p (u "./docs") then Unreadable permission_denied
           else Missing.

(** Three files that decode: a text, a blank file, a picture; and a
    sub-directory. *)
Definition mixed_files : list (str * entry) :=
  [ (u "notes.txt", RegularFile (bytes_of "The cat sat."));
    (u "blank.md", RegularFile (bytes_of "   "));
    (u "archive", Directory);
    (u "photo.png", RegularFile (bytes_of "PNG")) ].

Definition bad_argument : exn :=
  mk_exn TypeError (u "unexpected keyword argument 'llm_model_max_async'").

(** What a run leaves for an observer: the outcome and the trace. *)
Definition observe {Store A} (m : M (world Store) A) (f : fsys) (s : Store)
  : outcome A * list event :=
  let (r, w) := m (mk_world [] f s) in (r, trace w).


Definition stream_param : QueryParam := mk_param (u "global") true.

(** A LightRAG store that already holds a document. *)
Definition populated : fake_rag := mk_fake [u "Earlier document."] [].


(** The loading pass of lightrag-demo.py over a directory, on a fresh
    LightRAG instance. *)
Definition demo_pass (listing : list (str * entry)) : outcome nat * list event :=
  observe (LightRagDemo.load_docs_from_folder sample_unicode_lower fake_api
             LightRagDemo.DOCS_DIR rag_handle)
          (docs_with listing) (mk_fake [] []).

End Fixtures.


(* ================================================================== *)
(** * Facts about statements and traces *)
(* ================================================================== *)

Ltac step :=
  unfold bind, try_except, ret, raise, external, log, print, print_end, emit;
  cbn [fst snd trace fs store].

(** Brings a trace to the form [tr ++ [e1; ...; en]]. *)
Ltac flat := cbn; rewrite <- ?app_assoc; cbn [app]; try reflexivity.

Section TraceFacts.
Variable Store : Type.
Local Abbreviation W := (world Store).
Variable P : event -> Prop.

Lemma only_ret A (a : A) : only P (ret a : M W A).
Proof. intros w; exists []; rewrite app_nil_r; auto. Qed.

Lemma only_raise A e : only P (raise e : M W A).
Proof. intros w; exists []; rewrite app_nil_r; auto. Qed.

Lemma only_emit e : P e -> only P (emit e : M W unit).
Proof. intros H w; exists [e]; auto. Qed.

Lemma only_external A c (f : Store -> outcome A * Store) :
  P (Call c) -> only P (external c f).
Proof.
  intros H w; exists [Call c]; unfold external.
  destruct (f (store w)); auto.
Qed.

Lemma only_bind A B (m : M W A) (k : A -> M W B) :
  only P m -> (forall a, only P (k a)) -> only P (bind m k).
Proof.
  intros Hm Hk w. unfold bind.
  destruct (Hm w) as [ev1 [E1 F1]].
  destruct (m w) as [[a | e] w1]; cbn [snd] in E1.
  - destruct (Hk a w1) as [ev2 [E2 F2]].
    exists (ev1 ++ ev2). rewrite E2, E1, app_assoc.
    split; [reflexivity | apply Forall_app; auto].
  - exists ev1; auto.
Qed.

Lemma only_try_except A (m : M W A) (h : exn -> M W A) :
  only P m -> (forall e, only P (h e)) -> only P (try_except m h).
Proof.
  intros Hm Hh w. unfold try_except.
  destruct (Hm w) as [ev1 [E1 F1]].
  destruct (m w) as [[a | e] w1]; cbn [snd] in E1.
  - exists ev1; auto.
  - destruct (Hh e w1) as [ev2 [E2 F2]].
    exists (ev1 ++ ev2). rewrite E2, E1, app_assoc.
    split; [reflexivity | apply Forall_app; auto].
Qed.

Lemma only_for_each A (xs : list A) (body : A -> M W unit) :
  (forall x, only P (body x)) -> only P (for_each xs body).
Proof.
  intros Hb; induction xs as [| x rest IH]; cbn [for_each].
  - apply only_ret.
  - apply only_bind; auto.
Qed.

End TraceFacts.

Lemma calls_app a b : calls (a ++ b) = calls a ++ calls b.
Proof. unfold calls. apply flat_map_app. Qed.

Lemma count_calls_app p a b :
  count_calls p (a ++ b) = count_calls p a + count_calls p b.
Proof.
  unfold count_calls. rewrite calls_app, filter_app, length_app. reflexivity.
Qed.

Lemma count_calls_none evs :
  Forall not_ingestion evs -> count_calls is_ingestion evs = 0.
Proof.
  induction 1 as [| e evs He _ IH]; [reflexivity |].
  change (e :: evs) with ([e] ++ evs). rewrite count_calls_app, IH.
  destruct e as [t | l m | x | c]; try reflexivity.
  cbn in He. unfold count_calls; cbn. rewrite He. reflexivity.
Qed.

(* ================================================================== *)
(** * common_rag.py: index lifecycle, query engine, streaming *)
(* ================================================================== *)

Section CommonRagFacts.
Variable unicode_lower : N -> list N.
Variable Store : Type.
Variable api : llama_api Store.
Local Abbreviation W := (world Store).
Local Abbreviation init := (CommonRag.initialize_or_load_vector_store api).

Import CommonRag.

Lemma init_empty (w : W) s :
  opens api w 0 s -> init w = builds_new_index api w s.
Proof.
  intros (s1 & s2 & H1 & H2 & H3).
  unfold initialize_or_load_vector_store, read_directory, builds_new_index, opening.
  step. rewrite H1. step. rewrite H2. step. rewrite H3. cbn.
  destruct (load_data api DOCS_DIR (fs w)) as [documents | e]; [| flat].
  destruct (from_documents api documents s) as [[[] | e] s']; flat.
Qed.

Lemma init_populated (w : W) count s :
  opens api w count s -> count <> 0 -> init w = binds_existing_store api w s.
Proof.
  intros (s1 & s2 & H1 & H2 & H3) Hn.
  unfold initialize_or_load_vector_store, binds_existing_store, opening.
  step. rewrite H1. step. rewrite H2. step. rewrite H3. cbn.
  destruct count as [| n]; [congruence |]. cbn.
  destruct (from_vector_store api s) as [[[] | e] s']; flat.
Qed.

(** ** What the rest of the program writes to the trace *)

Lemma stream_response_quiet g : only not_ingestion (stream_response (Store:=Store) g).
Proof.
  unfold stream_response.
  repeat (apply only_bind; intros); try apply only_emit; try exact I.
  - destruct (failure g); [apply only_raise | apply only_ret].
  - apply only_ret.
Qed.

Lemma query_rag_quiet prompt engine :
  only not_ingestion (query_rag api prompt engine).
Proof.
  unfold query_rag, query_attempt.
  apply only_try_except.
  - apply only_bind; [apply only_external; reflexivity |].
    intros [g | t | t].
    + apply stream_response_quiet.
    + apply only_bind; [apply only_emit; exact I | intros; apply only_ret].
    + apply only_bind; [apply only_emit; exact I | intros; apply only_ret].
  - intros e. repeat (apply only_bind; [apply only_emit; exact I | intros]).
    apply only_ret.
Qed.

Lemma session_quiet inputs engine :
  only not_ingestion (session unicode_lower api inputs engine).
Proof.
  induction inputs as [| query rest IH]; cbn [session].
  - apply only_bind; [apply only_emit; exact I | intros; apply only_raise].
  - apply only_bind; [apply only_emit; exact I | intros _].
    destruct (existsb _ _); [apply only_ret |].
    apply only_bind; [apply query_rag_quiet | intros answer].
    apply only_bind; [apply only_emit; exact I | intros _; exact IH].
Qed.

Lemma create_query_engine_quiet index k m :
  only not_ingestion (create_query_engine (Store:=Store) index k m).
Proof.
  unfold create_query_engine, as_query_engine.
  apply only_bind; [apply only_emit; reflexivity | intros; apply only_ret].
Qed.

Lemma try_bind_run A B (m : M W A) (k : A -> M W B) h w :
  try_except (bind m k) h w =
  match m w with
  | (Return a, w1) => try_except (k a) h w1
  | (Raise e, w1) => h e w1
  end.
Proof. unfold try_except, bind. destruct (m w) as [[a | e] w1]; reflexivity. Qed.

(** C5. On start, [initialize_or_load_vector_store] asks the collection
    for its record count exactly once and branches on it: on a count of
    zero it reads the corpus directory, hands all documents read to
    [from_documents] and returns the index built from them; on a nonzero
    count it binds the index to the existing vector store and reads no
    document. *)
Theorem C5_count_once_then_branch (w : W) count s :
  opens api w count s ->
  count_calls is_count (trace (snd (init w)))
    = S (count_calls is_count (trace w))
  /\ (count = 0 -> init w = builds_new_index api w s)
  /\ (count <> 0 ->
      init w = binds_existing_store api w s
      /\ count_calls is_ingestion (trace (snd (init w)))
           = count_calls is_ingestion (trace w)).
Proof.
  intros Hopen.
  assert (Hpop : count <> 0 -> init w = binds_existing_store api w s)
    by (intros; eapply init_populated; eauto).
  assert (Hcnt : forall p,
             count <> 0 ->
             count_calls p (trace (snd (init w)))
             = count_calls p (trace w) + count_calls p opening
               + count_calls p [Call FromVectorStore]).
  { intros p Hn. rewrite (Hpop Hn). unfold binds_existing_store.
    destruct (from_vector_store api s) as [r s']. cbn [snd trace].
    rewrite !count_calls_app. cbn. lia. }
  split; [| split].
  - destruct count as [| n].
    + rewrite (init_empty Hopen). unfold builds_new_index.
      destruct (load_data api DOCS_DIR (fs w)) as [documents | e].
      * destruct (from_documents api documents s) as [r s'].
        cbn [snd trace]. rewrite !count_calls_app. cbn. lia.
      * cbn [snd trace]. rewrite !count_calls_app. cbn. lia.
    + rewrite Hcnt by discriminate. cbn. lia.
  - intros ->. apply init_empty; assumption.
  - intros Hn. split; [auto |]. rewrite (Hcnt _ Hn). cbn. lia.
Qed.

(** C1, for common_rag.py.  For every process start against a
    collection that already holds records, the whole run of [main]
    performs no ingestion: no [load_data], no [from_documents] and no
    insert call is added to the trace; the index is bound to the
    existing vector store instead. *)
Theorem C1_no_ingestion_when_populated inputs (w : W) count s :
  opens api w count s -> 0 < count ->
  count_calls is_ingestion (trace (snd (main unicode_lower api inputs w)))
    = count_calls is_ingestion (trace w)
  /\ In (Call FromVectorStore) (trace (snd (main unicode_lower api inputs w)))
  /\ (forall s', from_vector_store api s = (Return tt, s') ->
                 fst (init w) = Return (mk_index None)).
Proof.
  intros Hopen Hpos.
  assert (Hinit : init w = binds_existing_store api w s)
    by (eapply init_populated; eauto; lia).
  assert (Hrest : forall index,
             only not_ingestion
               (try_except
                  (engine <- create_query_engine (Store:=Store) index
                               (Some 20%Z) (Some (u "embedding")) ;;
                   print [10%N :: u "RAG system ready. Type 'exit' or 'quit' to end."] ;;
                   session unicode_lower api inputs engine)
                  (fun e => log ERROR (u "Fatal error: " ++ exn_msg e)))).
  { intros index. apply only_try_except.
    - apply only_bind; [apply create_query_engine_quiet | intros engine].
      apply only_bind; [apply only_emit; exact I | intros _].
      apply session_quiet.
    - intros e. apply only_emit. exact I. }
  unfold main. rewrite try_bind_run, Hinit. unfold binds_existing_store.
  destruct (from_vector_store api s) as [[[] | e] s'].
  - set (w1 := mk_world _ _ _).
    destruct (Hrest (mk_index None) w1) as [evs [E F]].
    rewrite E. subst w1. cbn [trace].
    split; [| split].
    + rewrite !count_calls_app, (count_calls_none F). cbn. lia.
    + apply in_or_app; left. apply in_or_app; right.
      apply in_or_app; right. cbn; auto.
    + intros s0 H0. reflexivity.
  - step. split; [| split].
    + rewrite !count_calls_app. cbn. lia.
    + apply in_or_app; left. apply in_or_app; right.
      apply in_or_app; right. cbn; auto.
    + intros s0 H0. discriminate.
Qed.

(** C10. For every index, result count and retrieval mode (given or
    left to their defaults), [create_query_engine] constructs the engine
    through [as_query_engine] with [streaming=True] and
    [response_mode="compact"]; its three parameters are the only ones. *)
Theorem C10_engine_streaming_compact
        (index : VectorStoreIndex) (k : option Z) (mode : option str) (w : W) :
  exists kwargs,
    create_query_engine index k mode w
    = (Return (mk_engine index kwargs),
       mk_world (trace w ++ [Call (AsQueryEngine kwargs)]) (fs w) (store w))
    /\ streaming kwargs = true
    /\ response_mode kwargs = u "compact"
    /\ similarity_top_k kwargs = match k with Some n => n | None => 5%Z end
    /\ retriever_mode kwargs
       = match mode with Some m => m | None => u "embedding" end.
Proof.
  eexists. split; [reflexivity |]. repeat split.
Qed.

(** The loop of [stream_response] returns the concatenation. *)
Lemma accumulate_concat tokens acc :
  accumulate tokens acc = acc ++ List.concat tokens.
Proof.
  revert acc; induction tokens as [| t rest IH]; intros acc; cbn.
  - now rewrite app_nil_r.
  - now rewrite IH, app_assoc.
Qed.

(** Whatever the chunks, a stream that ends normally is returned as
    their concatenation, and the only text written is the prefix and
    the closing newline. *)
Lemma stream_response_run tokens (w : W) :
  stream_response (mk_gen tokens None) w
  = (Return (List.concat tokens),
     mk_world (trace w ++ [Print (u "Bot: "); Print [10%N]]) (fs w) (store w)).
Proof.
  unfold stream_response. step. cbn [chunks failure].
  rewrite accumulate_concat. flat.
Qed.
End CommonRagFacts.

(* ================================================================== *)
(** * lightrag-demo.py: the loading pass and the query path *)
(* ================================================================== *)

Section DemoFacts.
Variable unicode_lower : N -> list N.
Variable Store : Type.
Variable api : lightrag_api Store.
Local Abbreviation W := (world Store).

Import LightRagDemo.

Local Abbreviation load_file := (LightRagDemo.load_file unicode_lower api).
Local Abbreviation load_files := (LightRagDemo.load_files unicode_lower api).
Local Abbreviation classify := (LightRagDemo.classify unicode_lower).
Local Abbreviation supported := (LightRagDemo.is_supported_file unicode_lower).

(** ** One file *)

(** No file makes the loop body raise. *)
Lemma load_file_total filename file c : total (load_file filename file c).
Proof.
  intros w. unfold LightRagDemo.load_file.
  destruct (negb (isfile file) || negb (supported filename));
    [eexists _, _; reflexivity |].
  destruct file as [data | |]; unfold open_read; step.
  - destruct (decode data) as [t |]; step.
    + destruct (is_empty (strip (universal_newlines t)));
        [eexists _, _; reflexivity |].
      destruct (rag_insert api (universal_newlines t) (store w)) as [[[] | e] s'];
        [eexists _, _; reflexivity |].
      destruct (is_UnicodeDecodeError e); eexists _, _; reflexivity.
    + eexists _, _; reflexivity.
  - eexists _, _; reflexivity.
  - eexists _, _; reflexivity.
Qed.

(** A supported file that does not decode: one warning, one more
    failure, nothing else. *)
Lemma load_file_decode_failure filename data c (w : W) :
  supported filename = true -> decode data = None ->
  load_file filename (RegularFile data) c w
  = (Return (mk_counters (loaded_count c) (S (failed_count c))),
     mk_world (trace w ++ [Log WARNING (u "❌ 编码错误，跳过文件: " ++ filename)])
              (fs w) (store w)).
Proof.
  intros Hs Hd. unfold LightRagDemo.load_file, open_read.
  rewrite Hs, Hd. reflexivity.
Qed.

(** With an insert that does not raise, the loop body follows the
    classification of the entry: the counters move by [tally] and the
    only call is the insert of a loaded file's text. *)
Lemma load_file_run filename file c (w : W) :
  insert_succeeds api ->
  exists evs s',
    load_file filename file c w
    = (Return (tally c (classify (filename, file))),
       mk_world (trace w ++ evs) (fs w) s')
    /\ calls evs = match classify (filename, file) with
                   | Loaded content => [RagInsert content]
                   | _ => []
                   end.
Proof.
  intros Hins. unfold LightRagDemo.load_file, LightRagDemo.classify.
  destruct (isfile file) eqn:Hf; cbn [negb orb];
    [| exists [], (store w); rewrite app_nil_r; destruct w; split; reflexivity].
  destruct (supported filename) eqn:Hs; cbn [negb];
    [| exists [], (store w); rewrite app_nil_r; destruct w; split; reflexivity].
  destruct file as [data | |]; try discriminate; unfold open_read; step.
  - destruct (decode data) as [t |]; step.
    + destruct (is_empty (strip (universal_newlines t))).
      * eexists [_], _; split; reflexivity.
      * specialize (Hins (universal_newlines t) (store w)).
        destruct (rag_insert api (universal_newlines t) (store w)) as [r s'].
        cbn in Hins; subst r.
        eexists [_; _], _; split; [flat | reflexivity].
    + eexists [_], _; split; reflexivity.
  - eexists [_], _; split; reflexivity.
Qed.

(** ** The whole loop *)

Lemma load_files_app a b c (w : W) :
  load_files (a ++ b) c w
  = match load_files a c w with
    | (Return c1, w1) => load_files b c1 w1
    | (Raise e, w1) => (Raise e, w1)
    end.
Proof.
  revert c w; induction a as [| [filename file] a IH]; intros c w;
    cbn [app LightRagDemo.load_files]; [reflexivity |].
  unfold bind.
  destruct (load_file filename file c w) as [[c1 | e] w1]; [apply IH | reflexivity].
Qed.

Lemma load_files_total names c : total (load_files names c).
Proof.
  revert c; induction names as [| [filename file] rest IH]; intros c w;
    cbn [LightRagDemo.load_files].
  - eexists _, _; reflexivity.
  - unfold bind.
    destruct (load_file_total filename file c w) as (c1 & w1 & E). rewrite E.
    apply IH.
Qed.

Lemma count_class_cons p named rest :
  count_class unicode_lower p (named :: rest)
  = (if p (classify named) then 1 else 0) + count_class unicode_lower p rest.
Proof.
  unfold count_class. cbn [filter].
  destruct (p (classify named)); reflexivity.
Qed.

Lemma count_class_app p a b :
  count_class unicode_lower p (a ++ b)
  = count_class unicode_lower p a + count_class unicode_lower p b.
Proof. unfold count_class. now rewrite filter_app, length_app. Qed.

Lemma loaded_contents_app a b :
  loaded_contents unicode_lower (a ++ b)
  = loaded_contents unicode_lower a ++ loaded_contents unicode_lower b.
Proof. apply flat_map_app. Qed.

Lemma tally_counts c k :
  tally c k
  = mk_counters (loaded_count c + (if is_loaded k then 1 else 0))
                (failed_count c + (if is_failed k then 1 else 0)).
Proof.
  destruct c as [l f], k; cbn; f_equal; lia.
Qed.

(** With an insert that does not raise, the pass ends with the number
    of loaded files and of failed files in its two counters, and has
    inserted the texts of the loaded files, in directory order. *)
Lemma load_files_run names c (w : W) :
  insert_succeeds api ->
  exists evs s',
    load_files names c w
    = (Return (mk_counters
                 (loaded_count c + count_class unicode_lower is_loaded names)
                 (failed_count c + count_class unicode_lower is_failed names)),
       mk_world (trace w ++ evs) (fs w) s')
    /\ calls evs = map RagInsert (loaded_contents unicode_lower names).
Proof.
  intros Hins. revert c w.
  induction names as [| [filename file] rest IH]; intros c w;
    cbn [LightRagDemo.load_files].
  - exists [], (store w). rewrite app_nil_r. destruct c, w; cbn.
    unfold count_class; cbn. rewrite !Nat.add_0_r. split; reflexivity.
  - unfold bind.
    destruct (load_file_run filename file c w Hins) as (ev1 & s1 & E1 & C1).
    rewrite E1.
    destruct (IH (tally c (classify (filename, file)))
                 (mk_world (trace w ++ ev1) (fs w) s1)) as (ev2 & s2 & E2 & C2).
    rewrite E2. cbn [trace fs].
    exists (ev1 ++ ev2), s2. split.
    + rewrite !count_class_cons, tally_counts, app_assoc. cbn [loaded_count failed_count].
      do 2 f_equal. f_equal; lia.
    + rewrite calls_app, C1, C2. unfold loaded_contents at 2. cbn [flat_map].
      rewrite map_app.
      destruct (classify (filename, file)); reflexivity.
Qed.

(** ** Queries never raise *)

Lemma print_stream_total g : total (print_stream (Store:=Store) g).
Proof.
  intros w. unfold print_stream, try_except, bind.
  destruct (for_each (chunks g) _ w) as [[[] | e] w1];
    [| eexists _, _; reflexivity].
  destruct (failure g); eexists _, _; reflexivity.
Qed.

(** [print_stream] of lightrag-demo.py writes every chunk as it comes,
    in the order of the stream, and a newline at its end. *)
Lemma for_each_print tokens (w : W) :
  for_each tokens (fun chunk => print_end [chunk] []) w
  = (Return tt, mk_world (trace w ++ map Print tokens) (fs w) (store w)).
Proof.
  revert w; induction tokens as [| t rest IH]; intros w; cbn [for_each map].
  - unfold ret. rewrite app_nil_r. destruct w; reflexivity.
  - unfold bind at 1. unfold print_end at 1, emit. rewrite IH.
    cbn [trace fs store join_sp]. rewrite app_nil_r, <- app_assoc. reflexivity.
Qed.

Lemma print_stream_forwards tokens (w : W) :
  print_stream (mk_gen tokens None) w
  = (Return tt,
     mk_world (trace w ++ map Print tokens ++ [Print [10%N]]) (fs w) (store w)).
Proof.
  unfold print_stream, try_except. unfold bind at 1. cbn [chunks failure].
  rewrite for_each_print. step. cbn [join_sp app]. rewrite <- app_assoc. reflexivity.
Qed.


Lemma count_class_perm p a b :
  Permutation a b ->
  count_class unicode_lower p a = count_class unicode_lower p b.
Proof.
  induction 1 as [| x a b _ IH | x y a | a b c _ IH1 _ IH2];
    rewrite ?count_class_cons; try congruence; lia.
Qed.

Lemma classify_loaded filename file content :
  classify (filename, file) = Loaded content ->
  exists data t,
    file = RegularFile data /\ decode data = Some t
    /\ content = universal_newlines t
    /\ supported filename = true /\ strip content <> [].
Proof.
  unfold LightRagDemo.classify.
  destruct (isfile file); cbn [negb]; [| discriminate].
  destruct (supported filename) eqn:Hs; cbn [negb]; [| discriminate].
  destruct file as [data | |]; try discriminate.
  destruct (decode data) as [t |] eqn:D; [| discriminate].
  destruct (is_empty (strip (universal_newlines t))) eqn:E; [discriminate |].
  intros [= <-]. exists data, t.
  do 4 (split; [first [reflexivity | assumption] |]).
  intros H; rewrite H in E; discriminate.
Qed.

(** C3, for lightrag-demo.py.  For a corpus directory that holds, in
    any order,
    exactly one valid text file, one white-space-only file, one file
    that is not valid UTF-8 and one file with an unsupported extension,
    [load_docs_from_folder] returns 1 as its loaded count, passes the
    valid file's text, and nothing else, to [rag.insert], and ends with
    the summary line of its two counters: 1 loaded, 1 failed.  The
    empty and the unsupported file move no counter. *)
Theorem C3_four_files folder rag (w : W) listing f1 f2 f3 f4 content :
  insert_succeeds api ->
  fs w folder = IsDir listing ->
  Permutation listing [f1; f2; f3; f4] ->
  classify f1 = Loaded content ->
  classify f2 = SkippedEmpty ->
  classify f3 = FailedDecode ->
  classify f4 = SkippedUnsupported ->
  exists evs s',
    load_docs_from_folder unicode_lower api folder rag w
    = (Return 1, mk_world (trace w ++ evs) (fs w) s')
    /\ calls evs = [RagInsert content]
    /\ last evs (Print []) = Log INFO (summary (mk_counters 1 1)).
Proof.
  intros Hins Hdir Hperm H1 H2 H3 H4.
  unfold load_docs_from_folder, path_exists, listdir. step.
  rewrite Hdir. cbn [negb present]. rewrite Hdir.
  set (w0 := mk_world _ _ _).
  destruct (load_files_run listing (mk_counters 0 0) w0 Hins)
    as (evs & s' & E & C).
  rewrite E. subst w0. cbn [trace fs store loaded_count failed_count].
  rewrite !(count_class_perm _ Hperm), !count_class_cons, H1, H2, H3, H4.
  cbn [is_loaded is_failed is_failed_decode is_failed_other orb
       count_class filter List.length Nat.add].
  eexists (_ :: evs ++ [_]), s'. split; [| split].
  - rewrite <- !app_assoc. reflexivity.
  - change (?x :: evs ++ ?y) with ([x] ++ evs ++ y).
    rewrite !calls_app, C. cbn [calls flat_map app]. rewrite app_nil_r.
    assert (P : Permutation [content] (loaded_contents unicode_lower listing)).
    { symmetry. unfold loaded_contents.
      etransitivity; [apply Permutation_flat_map; exact Hperm |].
      cbn [flat_map]. rewrite H1, H2, H3, H4. reflexivity. }
    apply Permutation_length_1_inv in P. rewrite P. reflexivity.
  - change (?x :: evs ++ [?y]) with ((x :: evs) ++ [y]).
    rewrite last_last. reflexivity.
Qed.


(** C7, for lightrag-demo.py.  For every corpus directory, a
    supported file that fails to decode adds one to the failure counter
    and does not abort the pass: the pass over the whole directory is
    the pass over the files before it, then the warning and the
    increment, then the pass over the files after it, and it returns
    normally.  With an insert that does not raise, every valid file
    before and after it is loaded. *)
Theorem C7_decode_failure_is_isolated before filename data after c (w : W) :
  supported filename = true ->
  decode data = None ->
  exists c1 w1,
    load_files before c w = (Return c1, w1)
    /\ load_files (before ++ (filename, RegularFile data) :: after) c w
       = load_files after
           (mk_counters (loaded_count c1) (S (failed_count c1)))
           (mk_world (trace w1
                        ++ [Log WARNING (u "❌ 编码错误，跳过文件: " ++ filename)])
                     (fs w1) (store w1))
    /\ (exists c2 w2,
          load_files (before ++ (filename, RegularFile data) :: after) c w
          = (Return c2, w2)
          /\ (insert_succeeds api ->
              loaded_count c2
              = loaded_count c + count_class unicode_lower is_loaded before
                + count_class unicode_lower is_loaded after
              /\ failed_count c2
                 = failed_count c + count_class unicode_lower is_failed before
                   + 1 + count_class unicode_lower is_failed after
              /\ exists evs,
                   trace w2 = trace w ++ evs
                   /\ calls evs
                      = map RagInsert (loaded_contents unicode_lower before
                                         ++ loaded_contents unicode_lower after))).
Proof.
  intros Hs Hd.
  destruct (load_files_total before c w) as (c1 & w1 & E1).
  exists c1, w1. split; [exact E1 | split].
  - rewrite load_files_app, E1. cbn [LightRagDemo.load_files]. unfold bind.
    rewrite load_file_decode_failure by assumption. reflexivity.
  - destruct (load_files_total
                (before ++ (filename, RegularFile data) :: after) c w)
      as (c2 & w2 & E2).
    exists c2, w2. split; [exact E2 |].
    intros Hins.
    destruct (load_files_run
                (before ++ (filename, RegularFile data) :: after) c w Hins)
      as (evs & s' & E & C).
    rewrite E in E2. injection E2 as <- <-.
    assert (K : classify (filename, RegularFile data) = FailedDecode).
    { unfold LightRagDemo.classify. cbn [isfile negb]. rewrite Hs, Hd. reflexivity. }
    cbn [loaded_count failed_count trace].
    rewrite !count_class_app, !count_class_cons, K.
    cbn [is_loaded is_failed is_failed_decode is_failed_other orb].
    split; [lia | split; [lia |]].
    exists evs. split; [reflexivity |].
    rewrite C, loaded_contents_app. unfold loaded_contents at 2.
    cbn [flat_map]. rewrite K. reflexivity.
Qed.

End DemoFacts.

(* ================================================================== *)
(** * The session loops *)
(* ================================================================== *)

Section SessionFacts.
Variable unicode_lower : N -> list N.
Variables StoreC StoreL : Type.
Variable llama : llama_api StoreC.
Variable light : lightrag_api StoreL.

Import LightRagDemo.



End SessionFacts.

(* ================================================================== *)
(** * File names: [splitext], [lower] and the allow-list *)
(* ================================================================== *)

Section SplitextFacts.

Lemma rfind_aux_absent c s i last :
  ~ In c s -> rfind_aux c s i last = last.
Proof.
  revert i last; induction s as [| x s IH]; intros i last H;
    cbn [rfind_aux]; [reflexivity |].
  destruct (N.eqb_spec x c) as [-> | Hne].
  - exfalso; apply H; left; reflexivity.
  - apply IH. intros Hin; apply H; right; exact Hin.
Qed.

Lemma rfind_aux_app c a b i last :
  rfind_aux c (a ++ b) i last
  = rfind_aux c b (i + Z.of_nat (List.length a))%Z (rfind_aux c a i last).
Proof.
  revert i last; induction a as [| x a IH]; intros i last;
    cbn [app rfind_aux List.length].
  - f_equal; lia.
  - rewrite IH. f_equal; lia.
Qed.

Lemma rfind_aux_bound c s i last :
  (last < i)%Z ->
  (last <= rfind_aux c s i last < i + Z.of_nat (List.length s))%Z
  \/ (s = [] /\ rfind_aux c s i last = last).
Proof.
  revert i last; induction s as [| x s IH]; intros i last H;
    cbn [rfind_aux List.length]; [right; auto |].
  left.
  destruct (x =? c)%N.
  - destruct (IH (i + 1)%Z i) as [B | [-> E]]; [lia | lia |].
    cbn [rfind_aux List.length]. lia.
  - destruct (IH (i + 1)%Z last) as [B | [-> E]]; [lia | lia |].
    cbn [rfind_aux List.length]. lia.
Qed.

Lemma rfind_absent c s : ~ In c s -> rfind c s = (-1)%Z.
Proof. apply rfind_aux_absent. Qed.

Lemma rfind_last c a b :
  ~ In c b -> rfind c (a ++ c :: b) = Z.of_nat (List.length a).
Proof.
  intros H. unfold rfind. rewrite rfind_aux_app. cbn [rfind_aux].
  rewrite N.eqb_refl, rfind_aux_absent by assumption. lia.
Qed.

Lemma rfind_app_absent c a b : ~ In c b -> rfind c (a ++ b) = rfind c a.
Proof.
  intros H. unfold rfind. rewrite rfind_aux_app.
  apply rfind_aux_absent; assumption.
Qed.

Lemma rfind_lt_length c s : (-1 <= rfind c s < Z.of_nat (List.length s) \/ s = [])%Z.
Proof.
  unfold rfind.
  destruct (@rfind_aux_bound c s 0%Z (-1)%Z) as [B | [-> _]]; [lia | left; lia | right; reflexivity].
Qed.

(** Every string splits at the last occurrence of a character, if any. *)
Lemma split_at_last (c : N) (s : str) :
  ~ In c s \/ exists a b, s = a ++ c :: b /\ ~ In c b.
Proof.
  induction s as [| x s IH].
  - left. intros [].
  - destruct IH as [H | (a & b & -> & H)].
    + destruct (N.eq_dec x c) as [-> | Hne].
      * right. exists [], s. split; [reflexivity | exact H].
      * left. intros [E | Hin]; [congruence | auto].
    + right. exists (x :: a), b. split; [reflexivity | exact H].
Qed.

Lemma sep_index pre rest :
  dir_prefix pre -> ~ In sep rest ->
  rfind sep (pre ++ rest) = (Z.of_nat (List.length pre) - 1)%Z.
Proof.
  intros [-> | [d ->]] H.
  - cbn [app List.length]. rewrite rfind_absent by assumption. reflexivity.
  - rewrite <- app_assoc. cbn [app]. rewrite rfind_last by assumption.
    rewrite length_app. cbn [List.length]. lia.
Qed.

Lemma sep_neq_extsep : sep <> extsep.
Proof. discriminate. Qed.

(** A path without a dot in its last component has no extension. *)
Lemma splitext_no_dot pre base :
  dir_prefix pre -> ~ In sep base -> ~ In extsep base ->
  splitext (pre ++ base) = (pre ++ base, []).
Proof.
  intros Hpre Hsep Hdot. unfold splitext.
  rewrite sep_index, rfind_app_absent by assumption.
  replace (Z.of_nat (List.length pre) - 1 <? rfind extsep pre)%Z with false;
    [reflexivity |].
  symmetry. apply Z.ltb_ge.
  destruct Hpre as [-> | [d ->]].
  - cbn. lia.
  - rewrite rfind_app_absent.
    + rewrite length_app. cbn [List.length].
      destruct (rfind_lt_length extsep d) as [B | ->]; [lia | cbn; lia].
    + intros [E | []]. apply sep_neq_extsep. exact E.
Qed.

(** A path whose last component is [stem ++ "." ++ e]: the extension is
    ["." ++ e] unless the stem consists of dots only. *)
Lemma splitext_dot pre stem e :
  dir_prefix pre -> ~ In sep stem -> ~ In sep e -> ~ In extsep e ->
  splitext (pre ++ stem ++ extsep :: e)
  = if existsb (fun c => negb (c =? extsep)%N) stem
    then (pre ++ stem, extsep :: e)
    else (pre ++ stem ++ extsep :: e, []).
Proof.
  intros Hpre Hs1 Hs2 Hdot. unfold splitext.
  assert (Hrest : ~ In sep (stem ++ extsep :: e)).
  { intros Hin. apply in_app_or in Hin. destruct Hin as [Hin | [E | Hin]]; auto.
    apply sep_neq_extsep. symmetry. exact E. }
  rewrite sep_index by assumption.
  rewrite app_assoc, rfind_last, <- app_assoc by assumption.
  rewrite length_app.
  replace (Z.of_nat (List.length pre) - 1
           <? Z.of_nat (List.length pre + List.length stem))%Z with true
    by (symmetry; apply Z.ltb_lt; lia).
  cbn [andb]. unfold slice.
  replace (Z.to_nat (Z.of_nat (List.length pre) - 1 + 1)) with (List.length pre) by lia.
  replace (Z.to_nat (Z.of_nat (List.length pre + List.length stem)
                     - (Z.of_nat (List.length pre) - 1 + 1)))
    with (List.length stem) by lia.
  rewrite skipn_app, skipn_all, Nat.sub_diag. cbn [skipn app].
  rewrite firstn_app, firstn_all, Nat.sub_diag. cbn [firstn]. rewrite app_nil_r.
  destruct (existsb _ stem); [| reflexivity].
  rewrite Nat2Z.id.
  rewrite app_assoc, <- length_app.
  rewrite firstn_app, firstn_all, Nat.sub_diag. cbn [firstn]. rewrite app_nil_r.
  rewrite skipn_app, skipn_all, Nat.sub_diag. cbn [skipn app].
  reflexivity.
Qed.

(** The two cases above cover every path. *)
Lemma path_shape (p : str) :
  exists pre base,
    p = pre ++ base /\ dir_prefix pre /\ ~ In sep base
    /\ (~ In extsep base
        \/ exists stem e, base = stem ++ extsep :: e /\ ~ In extsep e).
Proof.
  assert (Hbase : forall base,
             ~ In extsep base
             \/ exists stem e, base = stem ++ extsep :: e /\ ~ In extsep e)
    by (intros base; apply split_at_last).
  destruct (split_at_last sep p) as [H | (a & b & -> & H)].
  - exists [], p. repeat split; auto. left; reflexivity.
  - exists (a ++ [sep]), b. rewrite <- app_assoc. repeat split; auto.
    right. exists a. reflexivity.
Qed.

(** ** Lowering keeps the shape of a path *)

Variable unicode_lower : N -> list N.
Hypothesis table : keeps_separators unicode_lower.
Local Abbreviation lower := (Py.lower unicode_lower).
Local Abbreviation lower_char := (Py.lower_char unicode_lower).

Lemma lower_app a b : lower (a ++ b) = lower a ++ lower b.
Proof. apply flat_map_app. Qed.

Lemma lower_char_spec c :
  lower_char c <> []
  /\ (In extsep (lower_char c) -> c = extsep)
  /\ (In sep (lower_char c) -> c = sep).
Proof.
  unfold Py.lower_char, sep, extsep.
  destruct (N.leb_spec 65 c); cbn [andb].
  - destruct (N.leb_spec c 90).
    + repeat split; [discriminate | |]; intros [E | []]; lia.
    + destruct (N.ltb_spec c 128).
      * repeat split; [discriminate | |]; intros [E | []]; lia.
      * destruct (table H1) as (T1 & T2 & T3).
        repeat split; [exact T1 | |]; intros Hin; contradiction.
  - destruct (N.ltb_spec c 128); [| lia].
    repeat split; [discriminate | |]; intros [E | []]; lia.
Qed.

Lemma lower_extsep_cons e : lower (extsep :: e) = extsep :: lower e.
Proof. reflexivity. Qed.

Lemma lower_keeps_absent x s :
  x = sep \/ x = extsep -> ~ In x s -> ~ In x (lower s).
Proof.
  intros Hx Hs Hin. apply in_flat_map in Hin. destruct Hin as (c & Hc & Hin).
  destruct (lower_char_spec c) as (_ & Hd & Hp).
  destruct Hx as [-> | ->]; [apply Hp in Hin | apply Hd in Hin]; subst c; auto.
Qed.

Lemma lower_dir_prefix pre : dir_prefix pre -> dir_prefix (lower pre).
Proof.
  intros [-> | [d ->]]; [left; reflexivity |].
  right. exists (lower d). rewrite lower_app. reflexivity.
Qed.

Lemma lower_keeps_stem stem :
  existsb (fun c => negb (c =? extsep)%N) (lower stem)
  = existsb (fun c => negb (c =? extsep)%N) stem.
Proof.
  induction stem as [| c stem IH]; [reflexivity |].
  change (lower (c :: stem)) with (lower_char c ++ lower stem).
  rewrite existsb_app, IH. cbn [existsb]. f_equal.
  destruct (lower_char_spec c) as (Hne & Hd & _).
  destruct (N.eqb_spec c extsep) as [-> | Hc]; [reflexivity |].
  cbn [negb].
  destruct (lower_char c) as [| y l] eqn:E; [congruence |].
  cbn [existsb].
  destruct (N.eqb_spec y extsep) as [-> | Hy]; [| reflexivity].
  exfalso. apply Hc, Hd. left; reflexivity.
Qed.

(** [splitext] commutes with [lower]. *)
Lemma splitext_lower (p : str) :
  splitext (lower p) = (lower (fst (splitext p)), lower (snd (splitext p))).
Proof.
  destruct (path_shape p) as (pre & base & -> & Hpre & Hsep & Hbase).
  destruct Hbase as [Hdot | (stem & e & -> & Hdot)].
  - rewrite splitext_no_dot by assumption. cbn [fst snd].
    rewrite lower_app.
    apply splitext_no_dot;
      auto using lower_dir_prefix, lower_keeps_absent.
  - assert (Hs1 : ~ In sep stem) by (intros H; apply Hsep, in_or_app; auto).
    assert (Hs2 : ~ In sep e)
      by (intros H; apply Hsep, in_or_app; right; right; exact H).
    rewrite splitext_dot by assumption.
    rewrite !lower_app, lower_extsep_cons.
    rewrite splitext_dot;
      auto using lower_dir_prefix, lower_keeps_absent.
    rewrite lower_keeps_stem.
    destruct (existsb _ stem); cbn [fst snd].
    + rewrite lower_app, lower_extsep_cons. reflexivity.
    + rewrite !lower_app, lower_extsep_cons. reflexivity.
Qed.

Lemma str_eqb_eq a b : str_eqb a b = true <-> a = b.
Proof.
  unfold str_eqb. destruct (list_eq_dec N.eq_dec a b); split; congruence.
Qed.

Lemma is_in_In x l : existsb (str_eqb x) l = true <-> In x l.
Proof.
  rewrite existsb_exists. split.
  - intros (y & Hy & E). apply str_eqb_eq in E. subst; exact Hy.
  - intros H. exists x. split; [exact H | apply str_eqb_eq; reflexivity].
Qed.

(** C9.  For every file name, [is_supported_file] accepts it if and
    only if its extension ([os.path.splitext]), compared without regard
    to letter case, is one of ".txt", ".md", ".doc", ".docx", ".pdf";
    two names that differ only in letter case get the same decision. *)
Theorem C9_supported_iff_extension_allowed (filename : str) :
  (LightRagDemo.is_supported_file unicode_lower filename = true
   <-> In (lower (snd (splitext filename)))
          [u ".txt"; u ".md"; u ".doc"; u ".docx"; u ".pdf"])
  /\ (forall other,
        lower other = lower filename ->
        LightRagDemo.is_supported_file unicode_lower other
        = LightRagDemo.is_supported_file unicode_lower filename).
Proof.
  split.
  - unfold LightRagDemo.is_supported_file.
    rewrite splitext_lower. apply is_in_In.
  - intros other E. unfold LightRagDemo.is_supported_file. rewrite E. reflexivity.
Qed.
End SplitextFacts.

(* ================================================================== *)
(** * The programs on concrete inputs *)
(* ================================================================== *)

Import Fixtures.

Lemma sample_table_ok : keeps_separators sample_unicode_lower.
Proof.
  intros c Hc. unfold sample_unicode_lower, sep, extsep.
  destruct ((192 <=? c) && (c <=? 222) && negb (c =? 215))%N eqn:E1.
  - repeat split; [discriminate | |]; intros [E | []]; lia.
  - destruct (N.eqb_spec c 304).
    + repeat split; [discriminate | |]; intros [E | [E | []]]; lia.
    + destruct (N.eqb_spec c 8490).
      * repeat split; [discriminate | |]; intros [E | []]; lia.
      * repeat split; [discriminate | |]; intros [E | []]; lia.
Qed.

Lemma fake_insert_succeeds : LightRagDemo.insert_succeeds fake_api.
Proof. intros content s. reflexivity. Qed.

Lemma fake_opens f n a :
  CommonRag.opens fake_llama (mk_world [] f (mk_chroma n a)) n (mk_chroma n a).
Proof. exists (mk_chroma n a), (mk_chroma n a). repeat split. Qed.

Example supported_names :
  map (LightRagDemo.is_supported_file sample_unicode_lower)
      [u "a.txt"; u "A.TXT"; u "Notes.Md"; u "paper.PDF"; u "x.docx";
       u "photo.png"; u ".txt"; u "archive.tar.gz"; u "docs.txt/readme"]
  = [true; true; true; true; true; false; false; false; false].
Proof. vm_compute. reflexivity. Qed.

(** C1, counterexample.  Both LightRAG scripts start against a store
    that already holds a document and a corpus directory with one valid
    file: each calls [rag.insert] again. *)
Lemma C1_lightrag_scripts_insert_again :
  inserted populated <> []
  /\ filter is_ingestion
       (calls (snd (observe (LightRagDemo.program sample_unicode_lower fake_api [u "exit"])
                            (docs_with four_files) populated)))
     = [RagInsert (u "The cat sat.")]
  /\ filter is_ingestion
       (calls (snd (observe (LightRag.main sample_unicode_lower fake_api [u "exit"])
                            (docs_with one_file) populated)))
     = [RagInsert (u "The cat sat.")].
Proof. split; [discriminate |]. vm_compute. split; reflexivity. Qed.

(** C1, witness: a Chroma collection with three records. *)
Lemma C1_witness :
  let w := mk_world [] (docs_with four_files) (mk_chroma 3 []) in
  0 < 3
  /\ count_calls is_ingestion
       (trace (snd (CommonRag.main sample_unicode_lower fake_llama
                      [u "hello"; u "exit"] w)))
     = count_calls is_ingestion (trace w).
Proof.
  intros w. split; [lia |].
  exact (proj1 (@C1_no_ingestion_when_populated
                  sample_unicode_lower fake_chroma fake_llama
                  [u "hello"; u "exit"] w 3 (mk_chroma 3 [])
                  (fake_opens (docs_with four_files) 3 [])
                  (Nat.lt_0_succ 2))).
Defined.



(** C3, counterexample.  On a directory of the four kinds of file the
    pass returns
    1 and logs "1 loaded, 1 failed"; on a directory with a second
    unsupported file it returns and logs exactly the same, although the
    specification's report differs: the two counters the script keeps
    say nothing of unsupported or empty files. *)
Lemma C3_only_two_counters :
  demo_pass four_files
  = (Return 1,
     [ Log INFO (u "开始从 ./docs 加载文档...");
       Call (RagInsert (u "The cat sat."));
       Log INFO (u "✅ 成功加载: notes.txt (12 字符)");
       Log WARNING (u "文件 blank.md 为空，跳过");
       Log WARNING (u "❌ 编码错误，跳过文件: broken.txt");
       Log INFO (u "文档加载完成: 成功 1 个，失败 1 个") ])
  /\ demo_pass five_files = demo_pass four_files
  /\ LightRagDemo.spec_report sample_unicode_lower four_files
     = LightRagDemo.mk_report 1 1 1 1 0
  /\ LightRagDemo.spec_report sample_unicode_lower five_files
     = LightRagDemo.mk_report 1 1 2 1 0.
Proof. vm_compute. repeat split. Qed.

(** C3, witness: the four files, listed in reverse order. *)
Lemma C3_witness :
  let w := mk_world [] (docs_with (rev four_files)) (mk_fake [] []) in
  exists evs s',
    LightRagDemo.load_docs_from_folder sample_unicode_lower fake_api
      LightRagDemo.DOCS_DIR rag_handle w
    = (Return 1, mk_world (trace w ++ evs) (fs w) s')
    /\ calls evs = [RagInsert (u "The cat sat.")]
    /\ last evs (Print [])
       = Log INFO (LightRagDemo.summary (LightRagDemo.mk_counters 1 1)).
Proof.
  intros w.
  refine (@C3_four_files sample_unicode_lower fake_rag fake_api
            LightRagDemo.DOCS_DIR rag_handle w (rev four_files)
            (u "notes.txt", RegularFile (bytes_of "The cat sat."))
            (u "blank.md", RegularFile (bytes_of "   "))
            (u "broken.txt", RegularFile [xff; xfe; x41])
            (u "photo.png", RegularFile (bytes_of "PNG"))
            (u "The cat sat.")
            fake_insert_succeeds _ _ _ _ _ _).
  - vm_compute. reflexivity.
  - apply Permutation_sym. exact (Permutation_rev four_files).
  - vm_compute. reflexivity.
  - vm_compute. reflexivity.
  - vm_compute. reflexivity.
  - vm_compute. reflexivity.
Defined.

(** C4, the code at the chunks "The ", "cat ", "sat.": the text
    returned is
    "The cat sat.", and what is written to the output is the prefix
    "Bot: " and a newline; no chunk is forwarded. *)
Theorem C4_chunks_are_not_forwarded :
  observe (CommonRag.stream_response
             (mk_gen [u "The "; u "cat "; u "sat."] None))
          no_docs (mk_chroma 0 [])
  = (Return (u "The cat sat."), [Print (u "Bot: "); Print [10%N]]).
Proof.
  unfold observe. rewrite stream_response_run. reflexivity.
Qed.

(** C5, witness: an empty collection and a corpus directory. *)
Lemma C5_witness :
  let w := mk_world [] (docs_with one_file) (mk_chroma 0 []) in
  count_calls is_count
    (trace (snd (CommonRag.initialize_or_load_vector_store fake_llama w)))
  = 1
  /\ fst (CommonRag.initialize_or_load_vector_store fake_llama w)
     = Return (CommonRag.mk_index
                 (Some [mk_doc (u "The cat sat.") (u "./docs/notes.txt")])).
Proof.
  intros w.
  destruct (@C5_count_once_then_branch fake_chroma fake_llama w 0 (mk_chroma 0 [])
              (fake_opens (docs_with one_file) 0 [])) as (H1 & H2 & _).
  split; [exact H1 |].
  rewrite (H2 eq_refl). vm_compute. reflexivity.
Defined.



(** C7, counterexample.  lightrag.py over a valid file, a file that is
    not UTF-8 and another valid file: the decode error leaves
    [load_docs_from_folder] after the first insert; the third file is
    never read. *)
Lemma C7_lightrag_py_aborts_on_decode_failure :
  observe (LightRag.load_docs_from_folder fake_api LightRag.DOCS_DIR rag_handle)
          (docs_with three_files) (mk_fake [] [])
  = (Raise (mk_exn UnicodeDecodeError (u "'utf-8' codec can't decode byte")),
     [ Log INFO (u "Loading docs from ./docs");
       Call (RagInsert (u "The cat sat.")) ]).
Proof. vm_compute. reflexivity. Qed.

(** C7, witness: lightrag-demo.py over the same three files. *)
Lemma C7_witness :
  let w := mk_world [] (docs_with three_files) (mk_fake [] []) in
  LightRagDemo.is_supported_file sample_unicode_lower (u "broken.txt") = true
  /\ decode [xff; xfe; x41] = None
  /\ exists c2 w2,
       LightRagDemo.load_files sample_unicode_lower fake_api three_files
         (LightRagDemo.mk_counters 0 0) w
       = (Return c2, w2)
       /\ calls (trace w2)
          = [RagInsert (u "The cat sat."); RagInsert (u "The dog ran.")]
       /\ c2 = LightRagDemo.mk_counters 2 1.
Proof.
  intros w.
  assert (Hs : LightRagDemo.is_supported_file sample_unicode_lower (u "broken.txt")
               = true) by (vm_compute; reflexivity).
  assert (Hd : decode [xff; xfe; x41] = None) by (vm_compute; reflexivity).
  split; [exact Hs | split; [exact Hd |]].
  destruct (@C7_decode_failure_is_isolated
              sample_unicode_lower fake_rag fake_api
              [(u "notes.txt", RegularFile (bytes_of "The cat sat."))]
              (u "broken.txt") [xff; xfe; x41]
              [(u "more.txt", RegularFile (bytes_of "The dog ran."))]
              (LightRagDemo.mk_counters 0 0) w Hs Hd)
    as (c1 & w1 & _ & _ & c2 & w2 & E & _).
  exists c2, w2. split; [exact E |].
  vm_compute in E. injection E as <- <-. split; reflexivity.
Defined.



(** C9, witness: "A.TXT" under the sample case table. *)
Lemma C9_witness :
  (LightRagDemo.is_supported_file sample_unicode_lower (u "A.TXT") = true
   <-> In (lower sample_unicode_lower (snd (splitext (u "A.TXT"))))
          [u ".txt"; u ".md"; u ".doc"; u ".docx"; u ".pdf"])
  /\ (forall other,
        lower sample_unicode_lower other = lower sample_unicode_lower (u "A.TXT") ->
        LightRagDemo.is_supported_file sample_unicode_lower other
        = LightRagDemo.is_supported_file sample_unicode_lower (u "A.TXT")).
Proof.
  exact (@C9_supported_iff_extension_allowed
           sample_unicode_lower sample_table_ok (u "A.TXT")).
Defined.

(* ================================================================== *)
(** * lightrag-demo.py: the query path and the session, in general *)
(* ================================================================== *)

Section DemoQueries.
Variable unicode_lower : N -> list N.
Variable Store : Type.
Variable api : lightrag_api Store.
Local Abbreviation W := (world Store).

Import LightRagDemo.

Local Abbreviation streamed := (mk_param (u "global") true).
Local Abbreviation unstreamed := (mk_param (u "global") false).

(** What [print_stream] does with any stream, failing or not. *)
Lemma print_stream_run (g : generator) (w : W) :
  print_stream g w
  = (Return tt,
     mk_world (trace w ++ map Print (chunks g)
                 ++ [match failure g with
                     | None => Print [10%N]
                     | Some e => Log ERROR (u "打印流式响应时出错: " ++ exn_msg e)
                     end])
              (fs w) (store w)).
Proof.
  unfold print_stream, try_except. unfold bind at 1.
  rewrite for_each_print.
  destruct (failure g) as [e |]; step; cbn [join_sp app];
    rewrite <- app_assoc; reflexivity.
Qed.

Lemma printed_app a b : printed (a ++ b) = printed a ++ printed b.
Proof. unfold printed. apply flat_map_app. Qed.

Lemma calls_map_Print (l : list str) : calls (map Print l) = [].
Proof. induction l as [| t l IH]; [reflexivity | exact IH]. Qed.


(** What [query_rag_async] does with any query: it returns, having
    called [rag.query] with streaming on and, only if that raised,
    once more with streaming off. *)
Lemma query_rag_async_run query rag (w : W) :
  exists evs s',
    query_rag_async api query rag w
    = (Return tt, mk_world (trace w ++ evs) (fs w) s')
    /\ calls evs
       = RagQuery query streamed
         :: match fst (rag_query api query streamed (store w)) with
            | Return _ => []
            | Raise _ => [RagQuery query unstreamed]
            end.
Proof.
  unfold query_rag_async, streaming_attempt, fallback_attempt, try_except.
  unfold bind at 1. unfold external at 1.
  destruct (rag_query api query streamed (store w)) as [[[t | g] | e] s1];
    cbn [fst].
  - step. eexists [_; _], _. split; [flat | reflexivity].
  - rewrite print_stream_run. cbn [trace fs store].
    eexists (_ :: map Print (chunks g) ++ [_]), _. split.
    + rewrite <- app_assoc. reflexivity.
    + change (?x :: ?l ++ ?y) with ([x] ++ l ++ y).
      rewrite !calls_app, calls_map_Print.
      destruct (failure g); reflexivity.
  - step.
    destruct (rag_query api query unstreamed s1) as [[resp | e2] s2]; step.
    + eexists [_; _; _; _; _], _. split; [flat | reflexivity].
    + eexists [_; _; _; _; _; _], _. split; [flat | reflexivity].
Qed.

Local Abbreviation session := (LightRagDemo.session unicode_lower api).
Local Abbreviation is_exit := (LightRagDemo.is_exit unicode_lower).
Local Abbreviation is_question := (LightRagDemo.is_question unicode_lower).

(** The loop over any lines: it ends normally at the first exit word
    and with [EOFError] if there is none; the streaming queries it
    sends are the questions typed before that, stripped, in order. *)
Lemma demo_session_run lines rag n (w : W) :
  exists evs s',
    session lines rag n w
    = (if existsb is_exit lines then Return tt else Raise end_of_input,
       mk_world (trace w ++ evs) (fs w) s')
    /\ filter is_stream_query (calls evs)
       = map (fun line => RagQuery (strip line) streamed)
             (filter is_question (take_until is_exit lines)).
Proof.
  revert w; induction lines as [| line rest IH]; intros w.
  - cbn [LightRagDemo.session existsb take_until filter map]. step.
    eexists [_], _. split; reflexivity.
  - cbn [LightRagDemo.session existsb take_until].
    unfold bind at 1. unfold print_end at 1, emit. cbv zeta.
    set (w0 := mk_world _ _ _).
    destruct (is_empty (strip line)) eqn:E0.
    { assert (Hx : is_exit line = false)
        by (unfold LightRagDemo.is_exit; rewrite E0; reflexivity).
      assert (Hq : is_question line = false)
        by (unfold LightRagDemo.is_question; rewrite E0; reflexivity).
      rewrite Hx. cbn [orb filter]. rewrite Hq.
      destruct (IH w0) as (evs & s' & E & C). rewrite E.
      exists (Print (join_sp [prompt] ++ []) :: evs), s'. split.
      - subst w0. cbn [trace fs]. rewrite <- app_assoc. reflexivity.
      - exact C. }
    destruct (is_in (lower unicode_lower (strip line))
                    [u "exit"; u "quit"; u "退出"]) eqn:E1.
    { assert (Hx : is_exit line = true)
        by (unfold LightRagDemo.is_exit; rewrite E0, E1; reflexivity).
      rewrite Hx. cbn [orb filter map].
      step. subst w0. cbn [trace fs store].
      eexists [_; _], _. split; [flat | reflexivity]. }
    assert (Hx : is_exit line = false)
      by (unfold LightRagDemo.is_exit; rewrite E0, E1; reflexivity).
    rewrite Hx. cbn [orb filter].
    destruct (is_in (lower unicode_lower (strip line)) [u "help"; u "帮助"]) eqn:E2.
    { assert (Hq : is_question line = false)
        by (unfold LightRagDemo.is_question; rewrite E0, E1, E2; reflexivity).
      rewrite Hq.
      unfold print_help. step.
      set (w1 := mk_world _ _ _).
      destruct (IH w1) as (evs & s' & E & C). rewrite E.
      subst w1 w0. cbn [trace fs store].
      eexists (_ :: _ :: _ :: _ :: _ :: _ :: evs), s'. split.
      - rewrite <- !app_assoc. reflexivity.
      - exact C. }
    destruct (str_eqb (lower unicode_lower (strip line)) (u "clear")) eqn:E3.
    { assert (Hq : is_question line = false)
        by (unfold LightRagDemo.is_question; rewrite E0, E1, E2, E3; reflexivity).
      rewrite Hq.
      step. set (w1 := mk_world _ _ _).
      destruct (IH w1) as (evs & s' & E & C). rewrite E.
      subst w1 w0. cbn [trace fs store].
      eexists (_ :: _ :: evs), s'. split.
      - rewrite <- !app_assoc. reflexivity.
      - exact C. }
    destruct (str_eqb (lower unicode_lower (strip line)) (u "status")) eqn:E4.
    { assert (Hq : is_question line = false)
        by (unfold LightRagDemo.is_question; rewrite E0, E1, E2, E3, E4; reflexivity).
      rewrite Hq.
      step. set (w1 := mk_world _ _ _).
      destruct (IH w1) as (evs & s' & E & C). rewrite E.
      subst w1 w0. cbn [trace fs store].
      eexists (_ :: _ :: evs), s'. split.
      - rewrite <- !app_assoc. reflexivity.
      - exact C. }
    assert (Hq : is_question line = true)
      by (unfold LightRagDemo.is_question; rewrite E0, E1, E2, E3, E4; reflexivity).
    rewrite Hq.
    unfold bind at 1. unfold print at 1, print_end at 1, emit.
    unfold bind at 1. unfold print at 1, print_end at 1, emit.
    unfold bind at 1. unfold query_rag.
    set (w1 := mk_world _ _ _).
    destruct (query_rag_async_run (strip line) rag w1) as (evq & s1 & Eq & Cq).
    rewrite Eq.
    unfold bind at 1. unfold print at 1, print_end at 1, emit.
    set (w2 := mk_world _ _ _).
    destruct (IH w2) as (evs & s' & E & C). rewrite E.
    subst w2 w1 w0. cbn [trace fs store].
    eexists (_ :: _ :: _ :: evq ++ _ :: evs), s'. split.
    + rewrite <- !app_assoc. reflexivity.
    + cbn [map].
      change (?a :: ?b :: ?c :: evq ++ ?d :: evs)
        with ([a; b; c] ++ evq ++ [d] ++ evs).
      rewrite !calls_app, !filter_app, Cq, C.
      destruct (fst (rag_query api (strip line) streamed _)); reflexivity.
Qed.



(** X3.  The loop of lightrag-demo.py over any lines typed: it ends
    normally at the first exit word ("exit", "quit", "退出", in any
    letter case, white space around it ignored) and with [EOFError] when
    the lines run out before one; the queries it sends with streaming on
    are exactly the questions typed before the first exit word, stripped
    of surrounding white space, once each and in the order typed.  Blank
    lines, "help", "clear" and "status", and every line after the exit
    word, send none. *)
Theorem X3_session_sends_each_question_once lines rag n (w : W) :
  exists evs s',
    session lines rag n w
    = (if existsb is_exit lines then Return tt else Raise end_of_input,
       mk_world (trace w ++ evs) (fs w) s')
    /\ filter is_stream_query (calls evs)
       = map (fun line => RagQuery (strip line) streamed)
             (filter is_question (take_until is_exit lines))
    /\ count_calls is_ingestion evs = 0.
Proof.
  destruct (demo_session_run lines rag n w) as (evs & s' & E & C).
  exists evs, s'. split; [exact E | split; [exact C |]].
  assert (Q : only not_ingestion (session lines rag n)).
  { clear. induction lines as [| line rest IH]; cbn [LightRagDemo.session].
    - apply only_bind; [apply only_emit; exact I | intros; apply only_raise].
    - apply only_bind; [apply only_emit; exact I | intros _]. cbv zeta.
      repeat match goal with
             | |- only _ (if ?b then _ else _) => destruct b
             end;
        try exact IH.
      + apply only_emit; exact I.
      + apply only_bind; [| intros; exact IH].
        unfold print_help.
        repeat (apply only_bind; [apply only_emit; exact I | intros]).
        apply only_emit; exact I.
      + apply only_bind; [apply only_emit; reflexivity | intros; exact IH].
      + apply only_bind; [apply only_emit; exact I | intros; exact IH].
      + repeat (apply only_bind; [apply only_emit; exact I | intros]).
        apply only_bind; [| intros; apply only_bind;
                            [apply only_emit; exact I | intros; exact IH]].
        unfold query_rag, query_rag_async, streaming_attempt, fallback_attempt.
        apply only_try_except.
        * apply only_bind; [apply only_external; reflexivity |].
          intros [t | g]; [apply only_emit; exact I |].
          unfold print_stream. apply only_try_except.
          -- apply only_bind.
             ++ apply only_for_each. intros; apply only_emit; exact I.
             ++ intros. apply only_bind.
                ** destruct (failure g); [apply only_raise | apply only_ret].
                ** intros; apply only_emit; exact I.
          -- intros; apply only_emit; exact I.
        * intros e. apply only_bind; [apply only_emit; exact I | intros].
          apply only_try_except.
          -- apply only_bind; [apply only_emit; exact I | intros].
             apply only_bind; [apply only_external; reflexivity | intros].
             apply only_emit; exact I.
          -- intros e2. apply only_bind; apply only_emit || intros; try exact I.
             apply only_emit; exact I. }
  destruct (Q w) as (evs' & E' & F).
  rewrite E in E'. cbn [snd trace] in E'.
  apply app_inv_head in E'. subst evs'.
  apply count_calls_none; exact F.
Qed.
End DemoQueries.

(* ================================================================== *)
(** * lightrag-demo.py: the loading pass, in general *)
(* ================================================================== *)

Section DemoLoading.
Variable unicode_lower : N -> list N.
Variable Store : Type.
Variable api : lightrag_api Store.
Local Abbreviation W := (world Store).

Import LightRagDemo.

Local Abbreviation load_file := (LightRagDemo.load_file unicode_lower api).
Local Abbreviation load_files := (LightRagDemo.load_files unicode_lower api).
Local Abbreviation classify := (LightRagDemo.classify unicode_lower).
Local Abbreviation supported := (LightRagDemo.is_supported_file unicode_lower).
Local Abbreviation load_docs_from_folder :=
  (LightRagDemo.load_docs_from_folder unicode_lower api).

(** One file, whatever [rag.insert] does: the insert is attempted for a
    loaded-class entry and for no other; the entry moves at most one
    counter, and the loaded counter only if it is of that class. *)
Lemma load_file_account filename file c (w : W) :
  exists c' evs s',
    load_file filename file c w
    = (Return c', mk_world (trace w ++ evs) (fs w) s')
    /\ calls evs = match classify (filename, file) with
                   | Loaded content => [RagInsert content]
                   | _ => []
                   end
    /\ loaded_count c <= loaded_count c'
    /\ loaded_count c' + failed_count c'
       = loaded_count c + failed_count c
         + (if is_loaded (classify (filename, file))
               || is_failed (classify (filename, file)) then 1 else 0)
    /\ loaded_count c'
       <= loaded_count c + (if is_loaded (classify (filename, file)) then 1 else 0).
Proof.
  unfold LightRagDemo.load_file, LightRagDemo.classify.
  destruct (isfile file) eqn:Hf; cbn [negb orb];
    [| exists c, [], (store w); rewrite app_nil_r; destruct w;
       cbn; repeat split; lia].
  destruct (supported filename) eqn:Hs; cbn [negb];
    [| exists c, [], (store w); rewrite app_nil_r; destruct w;
       cbn; repeat split; lia].
  destruct file as [data | |]; try discriminate; unfold open_read; step.
  - destruct (decode data) as [t |]; step.
    + destruct (is_empty (strip (universal_newlines t))).
      * eexists _, [_], _; split; [reflexivity | cbn; repeat split; lia].
      * destruct (rag_insert api (universal_newlines t) (store w)) as [[[] | e] s'].
        -- eexists _, [_; _], _. split; [flat |]. cbn; repeat split; lia.
        -- destruct (is_UnicodeDecodeError e); step;
             (eexists _, [_; _], _; split; [flat |]; cbn; repeat split; lia).
    + eexists _, [_], _; split; [reflexivity | cbn; repeat split; lia].
  - eexists _, [_], _; split; [reflexivity | cbn; repeat split; lia].
Qed.

Lemma load_files_account names c (w : W) :
  exists c' evs s',
    load_files names c w
    = (Return c', mk_world (trace w ++ evs) (fs w) s')
    /\ calls evs = map RagInsert (loaded_contents unicode_lower names)
    /\ loaded_count c <= loaded_count c'
    /\ loaded_count c' + failed_count c'
       = loaded_count c + failed_count c
         + count_class unicode_lower is_loaded names
         + count_class unicode_lower is_failed names
    /\ loaded_count c'
       <= loaded_count c + count_class unicode_lower is_loaded names.
Proof.
  revert c w. induction names as [| [filename file] rest IH]; intros c w;
    cbn [LightRagDemo.load_files].
  - exists c, [], (store w). rewrite app_nil_r. destruct w.
    unfold count_class; cbn. repeat split; lia.
  - unfold bind.
    destruct (load_file_account filename file c w)
      as (c1 & ev1 & s1 & E1 & C1 & L1 & A1 & B1).
    rewrite E1.
    destruct (IH c1 (mk_world (trace w ++ ev1) (fs w) s1))
      as (c2 & ev2 & s2 & E2 & C2 & L2 & A2 & B2).
    rewrite E2. cbn [trace fs].
    exists c2, (ev1 ++ ev2), s2. rewrite app_assoc.
    split; [reflexivity |]. split.
    + rewrite calls_app, C1, C2. unfold loaded_contents at 2. cbn [flat_map].
      rewrite map_app. destruct (classify (filename, file)); reflexivity.
    + rewrite !count_class_cons.
      assert (K : is_loaded (classify (filename, file))
                  && is_failed (classify (filename, file)) = false)
        by (destruct (classify (filename, file)); reflexivity).
      destruct (is_loaded (classify (filename, file))),
               (is_failed (classify (filename, file)));
        cbn [orb andb] in *; try discriminate; repeat split; lia.
Qed.

Lemma loaded_contents_sound listing content :
  In content (loaded_contents unicode_lower listing) ->
  exists filename file,
    In (filename, file) listing /\ classify (filename, file) = Loaded content.
Proof.
  unfold loaded_contents. rewrite in_flat_map.
  intros ([filename file] & Hin & Hc).
  exists filename, file. split; [exact Hin |].
  destruct (classify (filename, file)); try contradiction.
  destruct Hc as [-> | []]. reflexivity.
Qed.

(** X4.  For every directory and whatever [rag.insert] does, the
    loading pass of lightrag-demo.py returns normally.  Every text it
    hands to [rag.insert] was read from a regular file of the directory
    with a supported extension, decodes as UTF-8 and is not white space
    only; the count it returns is at most the number of insert calls. *)
Theorem X4_only_supported_nonblank_texts_are_inserted
        folder rag (w : W) listing :
  fs w folder = IsDir listing ->
  exists n evs s',
    load_docs_from_folder folder rag w
    = (Return n, mk_world (trace w ++ evs) (fs w) s')
    /\ n <= List.length (calls evs)
    /\ forall c, In c (calls evs) ->
         exists filename data t,
           c = RagInsert (universal_newlines t)
           /\ In (filename, RegularFile data) listing
           /\ supported filename = true
           /\ decode data = Some t
           /\ strip (universal_newlines t) <> [].
Proof.
  intros Hdir.
  unfold LightRagDemo.load_docs_from_folder, path_exists, listdir. step.
  rewrite Hdir. cbn [negb present]. rewrite Hdir.
  set (w0 := mk_world _ _ _).
  destruct (load_files_account listing (mk_counters 0 0) w0)
    as (c' & evs & s' & E & C & L & A & B).
  rewrite E. subst w0. cbn [trace fs store].
  eexists _, (_ :: evs ++ [_]), s'. split; [| split].
  - rewrite <- !app_assoc. reflexivity.
  - change (?x :: evs ++ ?y) with ([x] ++ evs ++ y).
    rewrite !calls_app, C. cbn [calls flat_map app]. rewrite app_nil_r.
    rewrite length_map. cbn [loaded_count] in B.
    unfold count_class in B. unfold loaded_contents.
    clear - B. revert B. generalize (loaded_count c'). intros m B.
    eapply Nat.le_trans; [exact B |]. cbn [Nat.add].
    clear B. induction listing as [| x l IH]; [cbn; lia |].
    cbn [filter flat_map]. rewrite length_app.
    destruct (classify x); cbn [is_loaded List.length]; lia.
  - intros c Hc.
    change (?x :: evs ++ ?y) with ([x] ++ evs ++ y) in Hc.
    rewrite !calls_app, C in Hc. cbn [calls flat_map app] in Hc.
    rewrite app_nil_r in Hc. apply in_map_iff in Hc.
    destruct Hc as (content & <- & Hin).
    apply loaded_contents_sound in Hin.
    destruct Hin as (filename & file & Hin & Hk).
    destruct (classify_loaded _ _ _ Hk) as (data & t & -> & Hd & -> & Hs & Hne).
    exists filename, data, t. repeat split; assumption.
Qed.

(** X5.  With an insert that does not raise, for every directory the
    loading pass of lightrag-demo.py returns the number of its loaded
    files (supported, readable, not blank), has inserted exactly their
    texts in directory order, and ends with the summary line of that
    number and of the number of supported files that could not be read. *)
Theorem X5_pass_returns_number_of_loaded_files folder rag (w : W) listing :
  insert_succeeds api ->
  fs w folder = IsDir listing ->
  exists evs s',
    load_docs_from_folder folder rag w
    = (Return (count_class unicode_lower is_loaded listing),
       mk_world (trace w ++ evs) (fs w) s')
    /\ calls evs = map RagInsert (loaded_contents unicode_lower listing)
    /\ last evs (Print [])
       = Log INFO (summary (mk_counters
                              (count_class unicode_lower is_loaded listing)
                              (count_class unicode_lower is_failed listing))).
Proof.
  intros Hins Hdir.
  unfold LightRagDemo.load_docs_from_folder, path_exists, listdir. step.
  rewrite Hdir. cbn [negb present]. rewrite Hdir.
  set (w0 := mk_world _ _ _).
  destruct (load_files_run unicode_lower listing (mk_counters 0 0) w0 Hins)
    as (evs & s' & E & C).
  rewrite E. subst w0. cbn [trace fs store loaded_count failed_count Nat.add].
  eexists (_ :: evs ++ [_]), s'. split; [| split].
  - rewrite <- !app_assoc. reflexivity.
  - change (?x :: evs ++ ?y) with ([x] ++ evs ++ y).
    rewrite !calls_app, C. cbn [calls flat_map app]. rewrite app_nil_r.
    reflexivity.
  - change (?x :: evs ++ [?y]) with ((x :: evs) ++ [y]).
    rewrite last_last. reflexivity.
Qed.

Lemma is_empty_false (t : str) : t <> [] -> is_empty t = false.
Proof. destruct t; [congruence | reflexivity]. Qed.

(** X6.  A [rag.insert] that raises for one file of the directory does
    not abort the pass of lightrag-demo.py: the file is counted as
    failed (with a warning if the error is a [UnicodeDecodeError], an
    error record otherwise), and the pass goes on with the files after
    it exactly as it would have. *)
Theorem X6_insert_failure_is_isolated
        before filename data t after c (w : W) :
  supported filename = true ->
  decode data = Some t ->
  strip (universal_newlines t) <> [] ->
  exists c1 w1,
    load_files before c w = (Return c1, w1)
    /\ forall e s1,
         rag_insert api (universal_newlines t) (store w1) = (Raise e, s1) ->
         load_files (before ++ (filename, RegularFile data) :: after) c w
         = load_files after
             (mk_counters (loaded_count c1) (S (failed_count c1)))
             (mk_world
                (trace w1
                   ++ [ Call (RagInsert (universal_newlines t));
                        if is_UnicodeDecodeError e
                        then Log WARNING (u "❌ 编码错误，跳过文件: " ++ filename)
                        else Log ERROR (u "❌ 加载文件 " ++ filename
                                          ++ u " 时出错: " ++ exn_msg e) ])
                (fs w1) s1).
Proof.
  intros Hs Hd Hne.
  destruct (load_files_total unicode_lower api before c w) as (c1 & w1 & E1).
  exists c1, w1. split; [exact E1 |].
  intros e s1 Hraise.
  rewrite load_files_app, E1. cbn [LightRagDemo.load_files]. unfold bind at 1.
  unfold LightRagDemo.load_file, open_read. cbn [isfile negb orb].
  rewrite Hs, Hd. cbn [negb]. step.
  rewrite (is_empty_false Hne). rewrite Hraise.
  destruct (is_UnicodeDecodeError e); flat.
Qed.

(** X7.  The [try] of [load_docs_from_folder] in lightrag-demo.py
    covers the files, not the listing: the pass raises exactly when the
    path exists and [os.listdir] fails on it, with the error of
    [os.listdir], after the opening log line and before any insert: a
    [NotADirectoryError] for a path that is a file, the error of the
    system for a directory that cannot be listed.  For a path that does
    not exist and for a directory that lists it returns a count,
    whatever [rag.insert] does. *)
Theorem X7_pass_raises_exactly_when_listing_fails folder rag (w : W) :
  (fs w folder = NotDir ->
   load_docs_from_folder folder rag w
   = (Raise (mk_exn NotADirectoryError
                    (u "[Errno 20] Not a directory: '" ++ folder ++ u "'")),
      mk_world (trace w ++ [Log INFO (u "开始从 " ++ folder ++ u " 加载文档...")])
               (fs w) (store w)))
  /\ (forall e,
        fs w folder = Unreadable e ->
        load_docs_from_folder folder rag w
        = (Raise e,
           mk_world (trace w ++ [Log INFO (u "开始从 " ++ folder ++ u " 加载文档...")])
                    (fs w) (store w)))
  /\ (present (fs w folder) = false \/ (exists listing, fs w folder = IsDir listing) ->
      exists n w', load_docs_from_folder folder rag w = (Return n, w')).
Proof.
  split; [| split].
  - intros H. unfold LightRagDemo.load_docs_from_folder, path_exists, listdir.
    step. rewrite H. cbn [negb present]. rewrite H. reflexivity.
  - intros e H. unfold LightRagDemo.load_docs_from_folder, path_exists, listdir.
    step. rewrite H. cbn [negb present]. rewrite H. reflexivity.
  - intros H. unfold LightRagDemo.load_docs_from_folder, path_exists, listdir.
    step. destruct H as [H | [listing H]].
    + rewrite H. cbn [negb]. eexists _, _. reflexivity.
    + rewrite H. cbn [negb present]. rewrite H.
      set (w0 := mk_world _ _ _).
      destruct (load_files_total unicode_lower api listing (mk_counters 0 0) w0)
        as (c1 & w1 & E1).
      rewrite E1. eexists _, _. reflexivity.
Qed.
End DemoLoading.

(* ================================================================== *)
(** * lightrag-demo.py: start-up *)
(* ================================================================== *)

Section DemoStartup.
Variable unicode_lower : N -> list N.
Variable Store : Type.
Variable api : lightrag_api Store.
Local Abbreviation W := (world Store).

Import LightRagDemo.

Lemma docs_is_not_working : str_eqb DOCS_DIR WORKING_DIR = false.
Proof. vm_compute. reflexivity. Qed.

Lemma docs_is_not_working_sym : str_eqb WORKING_DIR DOCS_DIR = false.
Proof. vm_compute. reflexivity. Qed.

Lemma str_eqb_refl (a : str) : str_eqb a a = true.
Proof. unfold str_eqb. destruct (list_eq_dec N.eq_dec a a); congruence. Qed.

Lemma str_eqb_neq (a b : str) : a <> b -> str_eqb a b = false.
Proof. unfold str_eqb. destruct (list_eq_dec N.eq_dec a b); congruence. Qed.

(** With both directories in place [ensure_directories] does nothing. *)
Lemma ensure_directories_noop (w : W) :
  present (fs w WORKING_DIR) = true -> present (fs w DOCS_DIR) = true ->
  ensure_directories w = (Return tt, w).
Proof.
  intros H1 H2. unfold ensure_directories. cbn [for_each].
  unfold path_exists. step. rewrite H1. cbn. rewrite H2. reflexivity.
Qed.

Lemma world_eta (w : W) : mk_world (trace w ++ []) (fs w) (store w) = w.
Proof. destruct w. cbn. rewrite app_nil_r. reflexivity. Qed.

Ltac fs_cases w EW ED :=
  destruct (fs w WORKING_DIR) eqn:EW; destruct (fs w DOCS_DIR) eqn:ED;
  unfold ensure_directories; cbn [for_each];
  unfold path_exists, makedirs, with_new_dir; step;
  repeat (progress (rewrite ?EW, ?ED, ?docs_is_not_working; cbn)).

(** What [ensure_directories] does when neither directory is blocked:
    it makes what is absent of the two, logs each creation, and touches
    neither the store nor the console. *)
Lemma ensure_directories_run (w : W) :
  blocked (fs w WORKING_DIR) = false -> blocked (fs w DOCS_DIR) = false ->
  exists evs fs',
    ensure_directories (Store:=Store) w
    = (Return tt, mk_world (trace w ++ evs) fs' (store w))
    /\ calls evs = [] /\ printed evs = []
    /\ present (fs' WORKING_DIR) = true /\ present (fs' DOCS_DIR) = true.
Proof.
  intros BW BD.
  fs_cases w EW ED; rewrite ?EW in BW; rewrite ?ED in BD; try discriminate;
    (eexists _, _; split;
     [first [ rewrite <- ?app_assoc; reflexivity
            | rewrite world_eta; reflexivity ] |]);
    cbn [app calls printed flat_map];
    rewrite ?docs_is_not_working, ?docs_is_not_working_sym, ?str_eqb_refl,
            ?EW, ?ED;
    repeat split.
Qed.


(** X9.  When the full-parameter [LightRAG(...)] call raises,
    [initialize_rag] retries exactly when the error is a [TypeError]:
    then the instance is built once more with the basic parameters and
    its storages are initialised, the pipeline status is not, and
    [None] is returned if either step raises; for any other error
    [None] is returned at once, after the error record and the
    traceback. *)
Theorem X9_retry_only_on_type_error (w : W) e s1 :
  new_LightRAG api true (store w) = (Raise e, s1) ->
  initialize_rag api w
  = if is_TypeError e then
      let retry :=
        [ Call (NewLightRAG true);
          Log WARNING (u "使用完整参数初始化失败: " ++ exn_msg e);
          Log INFO (u "尝试使用基础参数初始化...");
          Call (NewLightRAG false) ] in
      let (r2, s2) := new_LightRAG api false s1 in
      match r2 with
      | Raise e2 =>
          (Return None,
           mk_world (trace w ++ retry
                       ++ [Log ERROR (u "基础参数初始化也失败: " ++ exn_msg e2)])
                    (fs w) s2)
      | Return _ =>
          let (r3, s3) := initialize_storages api s2 in
          match r3 with
          | Return _ =>
              (Return (Some rag_handle),
               mk_world (trace w ++ retry
                           ++ [ Call InitializeStorages;
                                Log INFO (u "使用基础参数初始化成功") ])
                        (fs w) s3)
          | Raise e3 =>
              (Return None,
               mk_world (trace w ++ retry
                           ++ [ Call InitializeStorages;
                                Log ERROR (u "基础参数初始化也失败: " ++ exn_msg e3) ])
                        (fs w) s3)
          end
      end
    else
      (Return None,
       mk_world (trace w
                   ++ [ Call (NewLightRAG true);
                        Log ERROR (u "初始化 RAG 系统时发生未知错误: " ++ exn_msg e);
                        PrintExc e ])
                (fs w) s1).
Proof.
  intros H. unfold initialize_rag. step. rewrite H. cbn.
  destruct (is_TypeError e); cbn.
  - destruct (new_LightRAG api false s1) as [[[] | e2] s2]; cbn.
    + destruct (initialize_storages api s2) as [[[] | e3] s3]; flat.
    + flat.
  - flat.
Qed.

(** X10.  [initialize_rag] never raises, whatever the LightRAG library
    does, and leaves the file system alone.  It builds the instance at
    most twice; when it returns an instance the storages have been
    initialised, and when it returns [None] an error record has been
    logged. *)
Theorem X10_initialize_rag_never_raises (w : W) :
  exists r evs s',
    initialize_rag api w = (Return r, mk_world (trace w ++ evs) (fs w) s')
    /\ count_calls is_constructor evs <= 2
    /\ count_calls is_ingestion evs = 0
    /\ (r <> None -> In (Call InitializeStorages) evs)
    /\ (r = None -> exists msg, In (Log ERROR msg) evs).
Proof.
  unfold initialize_rag. step.
  repeat match goal with
         | |- context [new_LightRAG api ?b ?s] =>
             destruct (new_LightRAG api b s) as [[[] | ] ]; cbn
         | |- context [initialize_storages api ?s] =>
             destruct (initialize_storages api s) as [[[] | ] ]; cbn
         | |- context [initialize_pipeline_status api ?s] =>
             destruct (initialize_pipeline_status api s) as [[[] | ] ]; cbn
         | |- context [is_TypeError ?e] => destruct (is_TypeError e); cbn
         end;
    (eexists _, _, _; split; [rewrite <- ?app_assoc; cbn [app]; reflexivity |]);
    (split; [unfold count_calls; cbn; lia |]);
    (split; [reflexivity |]);
    (split;
     [ intros Hr; try (exfalso; apply Hr; reflexivity); cbn; tauto
     | intros Hr; try discriminate; eexists; cbn;
       repeat (first [left; reflexivity | right]) ]).
Qed.

(** X11.  When the two directories exist or can be made and the
    [LightRAG(...)] call raises an error that is not a [TypeError], the
    program ends at once and normally: nothing is printed, no line typed
    by the user is read, the corpus is not loaded, and the constructor
    is the only call made; the last record of the log says that
    initialisation failed. *)
Theorem X11_program_ends_when_initialisation_fails inputs (w : W) e s1 :
  blocked (fs w WORKING_DIR) = false ->
  blocked (fs w DOCS_DIR) = false ->
  new_LightRAG api true (store w) = (Raise e, s1) ->
  is_TypeError e = false ->
  exists evs fs',
    program unicode_lower api inputs w
    = (Return tt, mk_world (trace w ++ evs) fs' s1)
    /\ printed evs = []
    /\ calls evs = [NewLightRAG true]
    /\ last evs (Print []) = Log ERROR (u "RAG 系统初始化失败，程序退出").
Proof.
  intros BW BD H Hnt.
  destruct (ensure_directories_run w BW BD) as (ev0 & fs' & E & C & P & _).
  unfold program, main, try_except. unfold bind at 1. rewrite E.
  unfold bind at 1. unfold log at 1, emit. cbn [trace fs store].
  unfold bind at 1.
  set (w1 := mk_world _ _ _).
  assert (X : initialize_rag api w1
              = (Return None,
                 mk_world (trace w1
                             ++ [ Call (NewLightRAG true);
                                  Log ERROR (u "初始化 RAG 系统时发生未知错误: "
                                               ++ exn_msg e);
                                  PrintExc e ])
                          (fs w1) s1)).
  { unfold initialize_rag. step. subst w1. cbn [store].
    rewrite H. cbn. rewrite Hnt. flat. }
  rewrite X. subst w1. step.
  eexists (ev0 ++ [_; _; _; _; _]), fs'. split; [| split; [| split]].
  - rewrite <- !app_assoc. reflexivity.
  - rewrite printed_app, P. reflexivity.
  - rewrite calls_app, C. reflexivity.
  - change (ev0 ++ [?a; ?b; ?c; ?d; ?x]) with (ev0 ++ [a; b; c; d] ++ [x]).
    rewrite app_assoc, last_last. reflexivity.
Qed.
End DemoStartup.

(* ================================================================== *)
(** * lightrag-demo.py: which file names are supported *)
(* ================================================================== *)

Section SupportedNames.
Variable unicode_lower : N -> list N.
Hypothesis table : keeps_separators unicode_lower.
Local Abbreviation lower := (Py.lower unicode_lower).
Local Abbreviation supported := (LightRagDemo.is_supported_file unicode_lower).
Local Abbreviation allowed := [u ".txt"; u ".md"; u ".doc"; u ".docx"; u ".pdf"].

Lemma empty_not_allowed : ~ In ([] : str) allowed.
Proof. vm_compute. intuition discriminate. Qed.

Lemma supported_iff_ext name :
  supported name = true <-> In (lower (snd (splitext name))) allowed.
Proof.
  unfold LightRagDemo.is_supported_file.
  rewrite (splitext_lower table). apply is_in_In.
Qed.

Lemma dots_have_no_sep n : ~ In sep (repeat extsep n).
Proof.
  intros H. apply repeat_spec in H. apply sep_neq_extsep. exact H.
Qed.

Lemma dots_are_dots n :
  existsb (fun c => negb (c =? extsep)%N) (repeat extsep n) = false.
Proof. induction n as [| n IH]; [reflexivity | exact IH]. Qed.

(** X12.  [is_supported_file] accepts exactly the names of the form
    directory part, stem, ".", letters, where the stem holds a character
    that is not a dot and the part from the last dot on is, lowered, one
    of the five extensions. *)
Theorem X12_supported_names_are_stem_and_extension (name : str) :
  supported name = true
  <-> exists pre stem e,
        name = pre ++ stem ++ extsep :: e
        /\ dir_prefix pre
        /\ ~ In sep stem /\ ~ In sep e /\ ~ In extsep e
        /\ existsb (fun c => negb (c =? extsep)%N) stem = true
        /\ In (lower (extsep :: e)) allowed.
Proof.
  rewrite supported_iff_ext. split.
  - intros H.
    destruct (path_shape name) as (pre & base & -> & Hpre & Hsep & Hbase).
    destruct Hbase as [Hdot | (stem & e & -> & Hdot)].
    + rewrite splitext_no_dot in H by assumption.
      exfalso. exact (empty_not_allowed H).
    + assert (Hs1 : ~ In sep stem) by (intros K; apply Hsep, in_or_app; auto).
      assert (Hs2 : ~ In sep e)
        by (intros K; apply Hsep, in_or_app; right; right; exact K).
      rewrite splitext_dot in H by assumption.
      destruct (existsb _ stem) eqn:Hstem; cbn [snd] in H.
      * exists pre, stem, e. repeat split; assumption.
      * exfalso. exact (empty_not_allowed H).
  - intros (pre & stem & e & -> & Hpre & Hs1 & Hs2 & Hdot & Hstem & Hin).
    rewrite splitext_dot by assumption. rewrite Hstem. exact Hin.
Qed.

(** X13.  A name whose last component has no dot, and a name whose last
    component has nothing but dots before its last dot (a hidden file
    such as ".txt" or "..md"), is never supported, whatever follows the
    dot. *)
Theorem X13_no_stem_no_support pre n e :
  dir_prefix pre -> ~ In sep e -> ~ In extsep e ->
  supported (pre ++ e) = false
  /\ supported (pre ++ repeat extsep n ++ extsep :: e) = false.
Proof.
  intros Hpre Hsep Hdot. split.
  - destruct (supported (pre ++ e)) eqn:E; [| reflexivity].
    apply supported_iff_ext in E.
    rewrite splitext_no_dot in E by assumption.
    exfalso. exact (empty_not_allowed E).
  - destruct (supported (pre ++ repeat extsep n ++ extsep :: e)) eqn:E;
      [| reflexivity].
    apply supported_iff_ext in E.
    rewrite splitext_dot in E by auto using dots_have_no_sep.
    rewrite dots_are_dots in E. cbn [snd] in E.
    exfalso. exact (empty_not_allowed E).
Qed.
End SupportedNames.

(* ================================================================== *)
(** * lightrag.py: loading and the loop *)
(* ================================================================== *)

Section LightRagFacts.
Variable unicode_lower : N -> list N.
Variable Store : Type.
Variable api : lightrag_api Store.
Local Abbreviation W := (world Store).

Local Abbreviation streamed := (mk_param (u "global") true).

Lemma lightrag_py_loop names (w : W) :
  (forall content s, fst (rag_insert api content s) = Return tt) ->
  (forall filename file,
      In (filename, file) names -> isfile file = true -> text_of file <> None) ->
  exists evs s',
    for_each names (fun '(filename, file) =>
      if isfile file then
        content <- open_read file ;;
        external (RagInsert content) (rag_insert api content)
      else ret tt) w
    = (Return tt, mk_world (trace w ++ evs) (fs w) s')
    /\ calls evs = map RagInsert (texts_of names).
Proof.
  intros Hins. revert w.
  induction names as [| [filename file] rest IH]; intros w Hread;
    cbn [for_each].
  - exists [], (store w). rewrite app_nil_r. destruct w. split; reflexivity.
  - assert (Hrest : forall f e, In (f, e) rest -> isfile e = true ->
                                text_of e <> None)
      by (intros f e Hin; apply (Hread f e); right; exact Hin).
    pose proof (Hread filename file (or_introl eq_refl)) as Hfile.
    unfold bind at 1.
    destruct file as [data | |]; cbn [isfile] in *.
    + specialize (Hfile eq_refl). cbn [text_of] in Hfile.
      unfold texts_of. cbn [flat_map snd text_of].
      unfold open_read.
      destruct (decode data) as [t |]; [| exfalso; apply Hfile; reflexivity].
      cbn [option_map]. step.
      specialize (Hins (universal_newlines t) (store w)).
      destruct (rag_insert api (universal_newlines t) (store w)) as [r s1].
      cbn in Hins; subst r.
      set (w1 := mk_world _ _ _).
      destruct (IH w1 Hrest) as (evs & s' & E & C).
      change (for_each rest _ w1) with
        (for_each rest (fun '(filename, file) =>
           if isfile file then
             content <- open_read file ;;
             external (RagInsert content) (rag_insert api content)
           else ret tt) w1).
      rewrite E. subst w1. cbn [trace fs].
      exists (Call (RagInsert (universal_newlines t)) :: evs), s'. split.
      * rewrite <- app_assoc. reflexivity.
      * cbn [app map]. change (?x :: evs) with ([x] ++ evs).
        rewrite calls_app, C. reflexivity.
    + exfalso. apply (Hfile eq_refl). reflexivity.
    + step. destruct (IH w Hrest) as (evs & s' & E & C).
      exists evs, s'. split; [| exact C].
      destruct w; exact E.
Qed.

(** X14.  [load_docs_from_folder] of lightrag.py does not filter: when
    every regular file of the directory opens and decodes and the insert
    does not raise, it hands the text of every regular file to
    [rag.insert], in directory order, whatever the file's extension and
    whether or not the text is blank; sub-directories are passed over. *)
Theorem X14_lightrag_py_inserts_every_regular_file folder rag (w : W) listing :
  (forall content s, fst (rag_insert api content s) = Return tt) ->
  fs w folder = IsDir listing ->
  readable listing ->
  exists evs s',
    LightRag.load_docs_from_folder api folder rag w
    = (Return tt, mk_world (trace w ++ evs) (fs w) s')
    /\ calls evs = map RagInsert (texts_of listing).
Proof.
  intros Hins Hdir Hread.
  unfold LightRag.load_docs_from_folder, listdir.
  unfold bind at 1. unfold log at 1, emit. unfold bind at 1.
  cbn [fs]. rewrite Hdir.
  set (w0 := mk_world _ _ _).
  destruct (lightrag_py_loop listing w0 Hins Hread) as (evs & s' & E & C).
  rewrite E. subst w0. cbn [trace fs].
  exists (Log INFO (u "Loading docs from " ++ folder) :: evs), s'. split.
  - rewrite <- app_assoc. reflexivity.
  - exact C.
Qed.

End LightRagFacts.

(* ================================================================== *)
(** * common_rag.py: queries and the loop, in general *)
(* ================================================================== *)

Section CommonRagQueries.
Variable unicode_lower : N -> list N.
Variable Store : Type.
Variable api : llama_api Store.
Local Abbreviation W := (world Store).

Import CommonRag.

Local Abbreviation session := (CommonRag.session unicode_lower api).
Local Abbreviation is_exit := (CommonRag.is_exit unicode_lower).






(** X19.  Start-up failures of common_rag.py are fatal and clean.  When
    the Chroma client cannot be opened, [main] makes no other call; when
    the collection is empty and the corpus directory cannot be read, the
    index is not built.  In both cases [main] logs "Fatal error: ..."
    and returns normally, and no line typed by the user is read. *)
Theorem X19_startup_failure_is_fatal inputs (w : W) e :
  (forall s1,
      persistent_client api CHROMA_DB_PATH (store w) = (Raise e, s1) ->
      main unicode_lower api inputs w
      = (Return tt,
         mk_world (trace w ++ [ Call (PersistentClient CHROMA_DB_PATH);
                                Log ERROR (u "Fatal error: " ++ exn_msg e) ])
                  (fs w) s1))
  /\ (forall s,
        opens api w 0 s ->
        load_data api DOCS_DIR (fs w) = Raise e ->
        main unicode_lower api inputs w
        = (Return tt,
           mk_world (trace w ++ opening
                       ++ [ Log INFO (u "Vector store is empty, creating new index...");
                            Call (LoadData DOCS_DIR);
                            Log ERROR (u "Fatal error: " ++ exn_msg e) ])
                    (fs w) s)).
Proof.
  split.
  - intros s1 H. unfold main. rewrite try_bind_run.
    unfold initialize_or_load_vector_store.
    unfold bind at 1. unfold external at 1. rewrite H.
    step. flat.
  - intros s Hopen H. unfold main.
    rewrite try_bind_run, (init_empty Hopen).
    unfold builds_new_index. rewrite H. step.
    rewrite <- !app_assoc. reflexivity.
Qed.
End CommonRagQueries.

(* ================================================================== *)
(** * The further properties on concrete inputs *)
(* ================================================================== *)

(** X4, witness: the four files, with an insert that always raises. *)
Lemma X4_witness :
  let w := mk_world [] (docs_with four_files) (mk_fake [] []) in
  exists n evs s',
    LightRagDemo.load_docs_from_folder sample_unicode_lower no_insert_api
      LightRagDemo.DOCS_DIR rag_handle w
    = (Return n, mk_world (trace w ++ evs) (fs w) s')
    /\ n <= List.length (calls evs)
    /\ forall c, In c (calls evs) ->
         exists filename data t,
           c = RagInsert (universal_newlines t)
           /\ In (filename, RegularFile data) four_files
           /\ LightRagDemo.is_supported_file sample_unicode_lower filename = true
           /\ decode data = Some t
           /\ strip (universal_newlines t) <> [].
Proof.
  intros w.
  refine (@X4_only_supported_nonblank_texts_are_inserted
            sample_unicode_lower fake_rag no_insert_api
            LightRagDemo.DOCS_DIR rag_handle w four_files _).
  vm_compute. reflexivity.
Defined.

(** X5, witness: five files, one of them loaded and one failed. *)
Lemma X5_witness :
  let w := mk_world [] (docs_with five_files) (mk_fake [] []) in
  exists evs s',
    LightRagDemo.load_docs_from_folder sample_unicode_lower fake_api
      LightRagDemo.DOCS_DIR rag_handle w
    = (Return (LightRagDemo.count_class sample_unicode_lower
                 LightRagDemo.is_loaded five_files),
       mk_world (trace w ++ evs) (fs w) s')
    /\ calls evs
       = map RagInsert (LightRagDemo.loaded_contents sample_unicode_lower five_files)
    /\ last evs (Print [])
       = Log INFO (LightRagDemo.summary
                     (LightRagDemo.mk_counters
                        (LightRagDemo.count_class sample_unicode_lower
                           LightRagDemo.is_loaded five_files)
                        (LightRagDemo.count_class sample_unicode_lower
                           LightRagDemo.is_failed five_files))).
Proof.
  intros w.
  refine (@X5_pass_returns_number_of_loaded_files
            sample_unicode_lower fake_rag fake_api
            LightRagDemo.DOCS_DIR rag_handle w five_files
            fake_insert_succeeds _).
  vm_compute. reflexivity.
Defined.

(** X6, witness: the insert of the first of two files raises. *)
Lemma X6_witness :
  let w := mk_world [] (docs_with three_files) (mk_fake [] []) in
  exists c1 w1,
    LightRagDemo.load_files sample_unicode_lower no_insert_api []
      (LightRagDemo.mk_counters 0 0) w
    = (Return c1, w1)
    /\ forall e s1,
         rag_insert no_insert_api (universal_newlines (u "The cat sat.")) (store w1)
         = (Raise e, s1) ->
         LightRagDemo.load_files sample_unicode_lower no_insert_api
           ([] ++ (u "notes.txt", RegularFile (bytes_of "The cat sat."))
               :: [(u "more.txt", RegularFile (bytes_of "The dog ran."))])
           (LightRagDemo.mk_counters 0 0) w
         = LightRagDemo.load_files sample_unicode_lower no_insert_api
             [(u "more.txt", RegularFile (bytes_of "The dog ran."))]
             (LightRagDemo.mk_counters (LightRagDemo.loaded_count c1)
                                       (S (LightRagDemo.failed_count c1)))
             (mk_world
                (trace w1
                   ++ [ Call (RagInsert (universal_newlines (u "The cat sat.")));
                        if is_UnicodeDecodeError e
                        then Log WARNING (u "❌ 编码错误，跳过文件: " ++ u "notes.txt")
                        else Log ERROR (u "❌ 加载文件 " ++ u "notes.txt"
                                          ++ u " 时出错: " ++ exn_msg e) ])
                (fs w1) s1).
Proof.
  intros w.
  refine (@X6_insert_failure_is_isolated
            sample_unicode_lower fake_rag no_insert_api
            [] (u "notes.txt") (bytes_of "The cat sat.") (u "The cat sat.")
            [(u "more.txt", RegularFile (bytes_of "The dog ran."))]
            (LightRagDemo.mk_counters 0 0) w _ _ _).
  - vm_compute. reflexivity.
  - vm_compute. reflexivity.
  - vm_compute. discriminate.
Defined.

(** X7, witness: the corpus path is a regular file; the corpus
    directory cannot be listed. *)
Lemma X7_witness :
  (let w := mk_world [] docs_is_a_file (mk_fake [] []) in
   LightRagDemo.load_docs_from_folder sample_unicode_lower fake_api
     LightRagDemo.DOCS_DIR rag_handle w
   = (Raise (mk_exn NotADirectoryError
                    (u "[Errno 20] Not a directory: '" ++ LightRagDemo.DOCS_DIR ++ u "'")),
      mk_world (trace w ++ [Log INFO (u "开始从 " ++ LightRagDemo.DOCS_DIR
                                        ++ u " 加载文档...")])
               (fs w) (store w)))
  /\ (let w := mk_world [] docs_is_closed (mk_fake [] []) in
      LightRagDemo.load_docs_from_folder sample_unicode_lower fake_api
        LightRagDemo.DOCS_DIR rag_handle w
      = (Raise permission_denied,
         mk_world (trace w ++ [Log INFO (u "开始从 " ++ LightRagDemo.DOCS_DIR
                                           ++ u " 加载文档...")])
                  (fs w) (store w))).
Proof.
  split; intros w.
  - refine (proj1 (@X7_pass_raises_exactly_when_listing_fails
                     sample_unicode_lower fake_rag fake_api
                     LightRagDemo.DOCS_DIR rag_handle w) _).
    vm_compute. reflexivity.
  - refine (proj1 (proj2 (@X7_pass_raises_exactly_when_listing_fails
                            sample_unicode_lower fake_rag fake_api
                            LightRagDemo.DOCS_DIR rag_handle w))
              permission_denied _).
    vm_compute. reflexivity.
Defined.


Example ensure_directories_dangling_link :
  observe (@LightRagDemo.ensure_directories fake_rag) docs_is_dangling (mk_fake [] [])
  = (Raise (file_exists (u "./docs")),
     [Log INFO (u "创建目录: ./dickens2")]).
Proof. vm_compute. reflexivity. Qed.

(** X9, witness: a constructor that rejects its arguments both times. *)
Lemma X9_witness :
  let w := mk_world [] no_docs (mk_fake [] []) in
  fst (LightRagDemo.initialize_rag (failing_api bad_argument) w) = Return None
  /\ count_calls is_constructor
       (trace (snd (LightRagDemo.initialize_rag (failing_api bad_argument) w)))
     = 2.
Proof.
  intros w.
  rewrite (@X9_retry_only_on_type_error fake_rag (failing_api bad_argument)
             w bad_argument (mk_fake [] []) eq_refl).
  vm_compute. split; reflexivity.
Defined.

(** X11, witness: a constructor that fails with another error. *)
Lemma X11_witness :
  let w := mk_world [] no_docs (mk_fake [] []) in
  exists evs fs',
    LightRagDemo.program sample_unicode_lower (failing_api boom) [u "hello"] w
    = (Return tt, mk_world (trace w ++ evs) fs' (mk_fake [] []))
    /\ printed evs = []
    /\ calls evs = [NewLightRAG true]
    /\ last evs (Print []) = Log ERROR (u "RAG 系统初始化失败，程序退出").
Proof.
  intros w.
  exact (@X11_program_ends_when_initialisation_fails
           sample_unicode_lower fake_rag (failing_api boom) [u "hello"] w
           boom (mk_fake [] []) eq_refl eq_refl eq_refl eq_refl).
Defined.

(** X12, witness: "Notes.Md" under the sample case table. *)
Lemma X12_witness :
  LightRagDemo.is_supported_file sample_unicode_lower (u "Notes.Md") = true
  <-> exists pre stem e,
        u "Notes.Md" = pre ++ stem ++ extsep :: e
        /\ dir_prefix pre
        /\ ~ In sep stem /\ ~ In sep e /\ ~ In extsep e
        /\ existsb (fun c => negb (c =? extsep)%N) stem = true
        /\ In (lower sample_unicode_lower (extsep :: e))
              [u ".txt"; u ".md"; u ".doc"; u ".docx"; u ".pdf"].
Proof.
  exact (@X12_supported_names_are_stem_and_extension
           sample_unicode_lower sample_table_ok (u "Notes.Md")).
Defined.

(** X13, witness: "txt" and ".txt". *)
Lemma X13_witness :
  LightRagDemo.is_supported_file sample_unicode_lower ([] ++ u "txt") = false
  /\ LightRagDemo.is_supported_file sample_unicode_lower
       ([] ++ repeat extsep 0 ++ extsep :: u "txt") = false.
Proof.
  refine (@X13_no_stem_no_support sample_unicode_lower sample_table_ok
            [] 0 (u "txt") (or_introl eq_refl) _ _).
  - vm_compute. intuition discriminate.
  - vm_compute. intuition discriminate.
Defined.

Lemma mixed_files_readable : readable mixed_files.
Proof.
  intros filename file Hin Hfile.
  cbn in Hin.
  destruct Hin as [E | [E | [E | [E | []]]]]; injection E as <- <-;
    try discriminate; vm_compute; discriminate.
Qed.

(** X14, witness: a text, a blank file, a sub-directory and a picture. *)
Lemma X14_witness :
  let w := mk_world [] (docs_with mixed_files) (mk_fake [] []) in
  exists evs s',
    LightRag.load_docs_from_folder fake_api LightRag.DOCS_DIR rag_handle w
    = (Return tt, mk_world (trace w ++ evs) (fs w) s')
    /\ calls evs = map RagInsert (texts_of mixed_files).
Proof.
  intros w.
  refine (@X14_lightrag_py_inserts_every_regular_file
            fake_rag fake_api LightRag.DOCS_DIR rag_handle w mixed_files
            fake_insert_succeeds _ mixed_files_readable).
  vm_compute. reflexivity.
Defined.

Example mixed_files_texts :
  texts_of mixed_files = [u "The cat sat."; u "   "; u "PNG"].
Proof. vm_compute. reflexivity. Qed.



(** X19, witness: a Chroma store that cannot be opened. *)
Lemma X19_witness :
  let w := mk_world [] no_docs (mk_chroma 0 []) in
  CommonRag.main sample_unicode_lower down_llama [u "hello"] w
  = (Return tt,
     mk_world (trace w ++ [ Call (PersistentClient CommonRag.CHROMA_DB_PATH);
                            Log ERROR (u "Fatal error: " ++ u "database is locked") ])
              (fs w) (mk_chroma 0 [])).
Proof.
  intros w.
  exact (proj1 (@X19_startup_failure_is_fatal
                  sample_unicode_lower fake_chroma down_llama [u "hello"] w
                  (mk_exn RuntimeError (u "database is locked")))
           (mk_chroma 0 []) eq_refl).
Defined.


(** X3, witness: a blank line, a question, "help", " QUIT " and a
    question that is never read. *)
Lemma X3_witness :
  let lines := [u "  "; u " What sat? "; u "help"; u " QUIT "; u "too late"] in
  let w := mk_world [] no_docs (mk_fake [] []) in
  exists evs s',
    LightRagDemo.session sample_unicode_lower fake_api lines rag_handle 1 w
    = (if existsb (LightRagDemo.is_exit sample_unicode_lower) lines
       then Return tt else Raise end_of_input,
       mk_world (trace w ++ evs) (fs w) s')
    /\ filter is_stream_query (calls evs)
       = map (fun line => RagQuery (strip line) stream_param)
             (filter (LightRagDemo.is_question sample_unicode_lower)
                     (take_until (LightRagDemo.is_exit sample_unicode_lower) lines))
    /\ count_calls is_ingestion evs = 0.
Proof.
  intros lines w.
  exact (@X3_session_sends_each_question_once
           sample_unicode_lower fake_rag fake_api lines rag_handle 1 w).
Defined.

Example X3_questions :
  let lines := [u "  "; u " What sat? "; u "help"; u " QUIT "; u "too late"] in
  map strip
      (filter (LightRagDemo.is_question sample_unicode_lower)
              (take_until (LightRagDemo.is_exit sample_unicode_lower) lines))
  = [u "What sat?"].
Proof. vm_compute. reflexivity. Qed.
